(** * Storyboard generator: shot sequences, the animatic player and the store

    A shallow embedding of the TypeScript sources: the shot, storyboard and
    project records ([types.ts]), the timer-driven [AnimaticPlayer] component
    ([components/AnimaticPlayer]), the inline player of [App.tsx], the store
    handlers of [App] and the image-generation client ([geminiService]).

    JavaScript numbers are IEEE 754 binary64 values: they are modelled by the
    kernel's primitive floats, so the arithmetic of the player is the
    arithmetic the browser performs.  The player is written over the small
    arithmetic interface it uses ([+], [>=], [0] and the tick), so that what
    is proved of it for every such arithmetic holds of binary64 in
    particular, rounding and NaN included. *)

From Stdlib Require Import List ZArith String Ascii Bool Lia Permutation.
From Stdlib Require Import Floats.PrimFloat Floats.SpecFloat Floats.FloatOps
  Floats.FloatAxioms.
From Stdlib Require Import DecimalString.
Import ListNotations.

Set Implicit Arguments.
Set Warnings "-inexact-float".
Open Scope string_scope.
Open Scope list_scope.

(** ** Results of code that may throw *)

(** A JavaScript evaluation either completes with a value or throws; the only
    exception the modelled code can throw is the [TypeError] of a property
    read on [undefined]. *)
Inductive outcome (A : Type) : Type :=
| Ok (a : A)
| TypeError.
Arguments Ok {A} a.
Arguments TypeError {A}.

(** ** The arithmetic of [number] *)

(** The operations the player performs on numbers: [+], [>=], the literal [0]
    and the quotient [tick / 1000] with [tick = 100]. *)
Class Number (num : Type) : Type := {
  add : num -> num -> num;
  geb : num -> num -> bool;
  zero : num;
  tickSeconds : num
}.

(** binary64: the program as it runs. *)
#[export] Instance binary64 : Number float := {
  add := PrimFloat.add;
  geb := fun a b => PrimFloat.leb b a;
  zero := 0%float;
  tickSeconds := (100 / 1000)%float
}.

(** ** Data model ([types.ts]) *)

(** [interface Shot].  Optional properties are [option]s: [None] is a property
    that is absent or holds [undefined] (the code never tells the two apart).
    [number] only ever receives an array length or index plus one. *)
Record Shot (num : Type) : Type := mkShot {
  id : string;
  number : Z;
  duration : num;
  title : string;
  cameraAngle : option string;
  imageUrl : option string;
  isGenerating : option bool;
  lastGeneratedPrompt : option string
}.

(** ** The animatic player ([components/AnimaticPlayer]) *)

Section AnimaticPlayer.
Context {num : Type} {N : Number num}.

(** The three [useState] cells of the component. *)
Record PlayerState : Type := mkPlayer {
  currentShotIndex : nat;
  isPlaying : bool;
  elapsedTime : num
}.

(** [useState(0)], [useState(true)], [useState(0)]. *)
Definition initialState : PlayerState := mkPlayer 0 true zero.

Variable shots : list (Shot num).

(** [shots[currentShotIndex]]: [None] is [undefined]. *)
Definition currentShot (st : PlayerState) : option (Shot num) :=
  nth_error shots (currentShotIndex st).

(** [arr.reduce((acc, s) => acc + s.duration, 0)]. *)
Definition sumDurations (arr : list (Shot num)) : num :=
  fold_left (fun acc s => add acc (duration s)) arr zero.

Definition totalDuration : num := sumDurations shots.

(** [shots.slice(0, currentShotIndex).reduce(...)]. *)
Definition currentShotStartTime (st : PlayerState) : num :=
  sumDurations (firstn (currentShotIndex st) shots).

(** [currentShotIndex < shots.length - 1], on integers: the length of an
    empty array makes the right-hand side -1. *)
Definition notLast (st : PlayerState) : bool :=
  (Z.of_nat (currentShotIndex st) <? Z.of_nat (List.length shots) - 1)%Z.

(** The [setInterval] callback: the updater passed to [setElapsedTime],
    together with the [setCurrentShotIndex] or [setIsPlaying] it issues.
    Reading [currentShot.duration] of an undefined shot throws. *)
Definition onInterval (st : PlayerState) : outcome PlayerState :=
  let nextTime := add (elapsedTime st) tickSeconds in
  match currentShot st with
  | None => TypeError
  | Some cur =>
      let shotEndTime := add (currentShotStartTime st) (duration cur) in
      if geb nextTime shotEndTime then
        if notLast st then
          Ok (mkPlayer (currentShotIndex st + 1) (isPlaying st) nextTime)
        else
          Ok (mkPlayer (currentShotIndex st) false (elapsedTime st))
      else
        Ok (mkPlayer (currentShotIndex st) (isPlaying st) nextTime)
  end.

(** What can happen to an open player: the interval fires, or the
    play/pause button is pressed.  (This component has no other control
    that writes its state; closing unmounts it.) *)
Inductive Event : Type :=
| Tick
| TogglePlay.

(** The effect installs the interval only while [isPlaying]: a paused
    player receives no tick. *)
Definition step (st : PlayerState) (e : Event) : outcome PlayerState :=
  match e with
  | Tick => if isPlaying st then onInterval st else Ok st
  | TogglePlay =>
      Ok (mkPlayer (currentShotIndex st) (negb (isPlaying st)) (elapsedTime st))
  end.

Fixpoint run (es : list Event) (st : PlayerState) : outcome PlayerState :=
  match es with
  | [] => Ok st
  | e :: es' =>
      match step st e with
      | Ok st' => run es' st'
      | TypeError => TypeError
      end
  end.

(** The state after [n] ticks of uninterrupted playback. *)
Definition ticks (n : nat) : outcome PlayerState :=
  run (repeat Tick n) initialState.

(** What the render reads of the current shot: [currentShot?.imageUrl]
    tolerates an undefined shot, [currentShot.number] and
    [currentShot.title] do not. *)
Record View : Type := mkView {
  viewImage : option string;
  viewNumber : Z;
  viewTitle : string;
  viewPlaying : bool
}.

Definition render (st : PlayerState) : outcome View :=
  let image := match currentShot st with
               | Some cur => imageUrl cur
               | None => None
               end in
  match currentShot st with
  | None => TypeError
  | Some cur => Ok (mkView image (number cur) (title cur) (isPlaying st))
  end.

End AnimaticPlayer.

Arguments PlayerState num : clear implicits.
Arguments View : clear implicits.

(** ** The inline player of [App.tsx] *)

(** The second [AnimaticPlayer], declared inside [App.tsx]: it keeps only
    [currentIndex] and [isPlaying], and an effect with dependencies
    [[currentIndex, isPlaying, shots]] arms one [setTimeout] per shot.  The
    pending timeout is part of the model, with the time it has already
    waited, because that is all this player has of a playback clock. *)
Module InlinePlayer.

(** A pending [setTimeout]: its delay and the time waited so far, both in
    milliseconds. *)
Record Timer : Type := mkTimer {
  delay : float;
  waited : float
}.

Record State : Type := mkState {
  currentIndex : nat;
  isPlaying : bool;
  timer : option Timer
}.

(** JavaScript truthiness of a number: neither zero nor NaN. *)
Definition truthy (x : float) : bool :=
  PrimFloat.eqb x x && negb (PrimFloat.eqb x 0).

(** [(shots[currentIndex]?.duration || 2) * 1000]. *)
Definition shotDuration (shots : list (Shot float)) (i : nat) : float :=
  let d := match nth_error shots i with
           | Some s => if truthy (duration s) then duration s else 2%float
           | None => 2%float
           end in
  (d * 1000)%float.

(** The body of the effect: nothing while paused, else a fresh timeout. *)
Definition arm (shots : list (Shot float)) (i : nat) (playing : bool)
  : option Timer :=
  if playing then Some (mkTimer (shotDuration shots i) 0%float) else None.

(** Mounting: [useState(0)], [useState(true)], then the effect. *)
Definition mount (shots : list (Shot float)) : State :=
  mkState 0 true (arm shots 0 true).

(** A state write.  React keeps the state, and does not run the effect
    again, when the written values equal the current ones; otherwise the
    clean-up clears the pending timeout and the effect arms a new one. *)
Definition commit (shots : list (Shot float)) (st : State)
    (i : nat) (playing : bool) : State :=
  if Nat.eqb i (currentIndex st) && Bool.eqb playing (isPlaying st)
  then st
  else mkState i playing (arm shots i playing).

(** Time passing with no timeout firing. *)
Definition elapse (dt : float) (st : State) : State :=
  match timer st with
  | Some t => mkState (currentIndex st) (isPlaying st)
                      (Some (mkTimer (delay t) (waited t + dt)%float))
  | None => st
  end.

(** The timeout callback. *)
Definition onTimeout (shots : list (Shot float)) (st : State) : State :=
  if (Z.of_nat (currentIndex st) <? Z.of_nat (List.length shots) - 1)%Z
  then commit shots st (currentIndex st + 1) (isPlaying st)
  else commit shots st (currentIndex st) false.


(** The play/pause button: [setIsPlaying(!isPlaying)]. *)
Definition togglePlay (shots : list (Shot float)) (st : State) : State :=
  commit shots st (currentIndex st) (negb (isPlaying st)).


End InlinePlayer.

(** ** Storyboards, projects and the state of [App] *)

(** Shots as the application holds them: durations are binary64 numbers. *)
Abbreviation JsShot := (Shot float).

Record Storyboard : Type := mkStoryboard {
  sb_id : string;
  sb_name : string;
  sb_shots : list JsShot
}.

Inductive AspectRatio : Type :=
| R16_9 | R9_16 | R4_3 | R3_4 | R1_1.

Record Project : Type := mkProject {
  p_id : string;
  p_name : string;
  p_storyboards : list Storyboard;
  p_activeStoryboardId : string;
  p_aspectRatio : AspectRatio
}.

Inductive DeleteType : Type :=
| DeleteProject
| DeleteStoryboard.

(** The [deleteConfirmation] cell; [None] is [null]. *)
Record DeleteConfirmation : Type := mkConfirmation {
  dc_isOpen : bool;
  dc_type : option DeleteType;
  dc_id : option string;
  dc_name : string
}.

(** The [useState] cells of [App] that the handlers read or write. *)
Record AppState : Type := mkApp {
  projects : list Project;
  activeProjectId : string;
  isPlayerOpen : bool;
  selectedShotId : option string;
  deleteConfirmation : DeleteConfirmation
}.

Definition DEFAULT_SHOTS : list JsShot :=
  [ mkShot "1" 1 3.5%float
      "Wide establishing shot of a dense, misty forest at midnight."
      (Some "Wide Shot") (Some EmptyString) None (Some EmptyString);
    mkShot "2" 2 2.0%float
      "Extreme close-up of a young woman’s eye. Her pupil dilates."
      (Some "Extreme Close Up") (Some EmptyString) None (Some EmptyString);
    mkShot "3" 3 4.5%float
      "Medium shot from behind the woman as she stands before an old archway."
      (Some "Medium Shot") (Some EmptyString) None (Some EmptyString) ].

Definition DEFAULT_STORYBOARDS : list Storyboard :=
  [ mkStoryboard "sb-1" "The Encounter" DEFAULT_SHOTS ].

Definition DEFAULT_PROJECTS : list Project :=
  [ mkProject "p-1" "The Midnight Discovery" DEFAULT_STORYBOARDS "sb-1" R16_9 ].

Definition closedConfirmation : DeleteConfirmation :=
  mkConfirmation false None None EmptyString.

(** The first render with nothing in storage. *)
Definition initialApp : AppState :=
  mkApp DEFAULT_PROJECTS "p-1" false (Some "1") closedConfirmation.

(** Field updates, for the spreads [{ ...x, field: v }]. *)
Definition setShots (sb : Storyboard) (l : list JsShot) : Storyboard :=
  mkStoryboard (sb_id sb) (sb_name sb) l.

Definition setStoryboards (p : Project) (l : list Storyboard) : Project :=
  mkProject (p_id p) (p_name p) l (p_activeStoryboardId p) (p_aspectRatio p).

Definition setActiveStoryboardId (p : Project) (i : string) : Project :=
  mkProject (p_id p) (p_name p) (p_storyboards p) i (p_aspectRatio p).

Definition setProjects (st : AppState) (l : list Project) : AppState :=
  mkApp l (activeProjectId st) (isPlayerOpen st) (selectedShotId st)
        (deleteConfirmation st).

Definition setNumber (s : JsShot) (n : Z) : JsShot :=
  mkShot (id s) n (duration s) (title s) (cameraAngle s) (imageUrl s)
         (isGenerating s) (lastGeneratedPrompt s).

(** [a || b] on possibly undefined objects (an object is always truthy). *)
Definition orElse {A : Type} (a b : option A) : option A :=
  match a with
  | Some x => Some x
  | None => b
  end.

(** Derived state, computed by every render of [App]. *)
Definition activeProject (st : AppState) : option Project :=
  orElse (find (fun p => String.eqb (p_id p) (activeProjectId st)) (projects st))
         (hd_error (projects st)).

Definition activeStoryboard (p : Project) : option Storyboard :=
  orElse (find (fun sb => String.eqb (sb_id sb) (p_activeStoryboardId p))
               (p_storyboards p))
         (hd_error (p_storyboards p)).

(** The handlers are closures of a render that computed [activeProject] and
    [activeStoryboard]; had either been undefined the render would have
    thrown and no handler would exist, so that case leaves the state as it
    is. *)
Definition withActive (st : AppState)
    (k : Project -> Storyboard -> AppState) : AppState :=
  match activeProject st with
  | Some p =>
      match activeStoryboard p with
      | Some sb => k p sb
      | None => st
      end
  | None => st
  end.

(** [const shots = activeStoryboard.shots]. *)
Definition shotsOf (st : AppState) : list JsShot :=
  match activeProject st with
  | Some p =>
      match activeStoryboard p with
      | Some sb => sb_shots sb
      | None => []
      end
  | None => []
  end.

(** [projects.map(p => p.id === activeProjectId ? updatedProject : p)] after
    [storyboards.map(sb => sb.id === activeStoryboard.id ? updated : sb)]:
    the tail shared by the three shot handlers. *)
Definition storeShots (st : AppState) (p : Project) (sb : Storyboard)
    (l : list JsShot) : list Project :=
  let updatedStoryboard := setShots sb l in
  let updatedProject :=
    setStoryboards p
      (map (fun x => if String.eqb (sb_id x) (sb_id sb)
                     then updatedStoryboard else x)
           (p_storyboards p)) in
  map (fun x => if String.eqb (p_id x) (activeProjectId st)
                then updatedProject else x)
      (projects st).

(** The decimal digits of a [Date.now()] reading or of a length. *)
Definition decimal (z : Z) : string := NilZero.string_of_int (Z.to_int z).

(** [arr.map((s, i) => f(s, i))]. *)
Fixpoint mapi_from {A B : Type} (f : A -> nat -> B) (i : nat) (l : list A)
  : list B :=
  match l with
  | [] => []
  | a :: l' => f a i :: mapi_from f (S i) l'
  end.

Definition mapi {A B : Type} (f : A -> nat -> B) (l : list A) : list B :=
  mapi_from f 0 l.

(** [.map((s, i) => ({ ...s, number: i + 1 }))]. *)
Definition renumber (l : list JsShot) : list JsShot :=
  mapi (fun s i => setNumber s (Z.of_nat i + 1)) l.

(** [arr.splice(start, deleteCount, ...items)] at a non-negative [start]:
    the removed elements and the array afterwards.  A [start] past the end
    is clamped to the length, which [firstn] and [skipn] do by themselves. *)
Definition splice {A : Type} (arr : list A) (start deleteCount : nat)
    (items : list A) : list A * list A :=
  (firstn deleteCount (skipn start arr),
   firstn start arr ++ items ++ skipn (start + deleteCount) arr).

(** ** Store handlers of [App] *)

(** [handleNewProject].  The object literal calls [Date.now()] three times,
    for the project id, the storyboard id and [activeStoryboardId]; the
    readings are the arguments, in evaluation order. *)
Definition handleNewProject (st : AppState) (now1 now2 now3 : Z) : AppState :=
  let newProject :=
    mkProject (String.append "p-" (decimal now1)) "New Project"
      [ mkStoryboard (String.append "sb-" (decimal now2)) "Main Storyboard" [] ]
      (String.append "sb-" (decimal now3)) R16_9 in
  mkApp (projects st ++ [newProject]) (p_id newProject) (isPlayerOpen st)
        (selectedShotId st) (deleteConfirmation st).

(** The add-storyboard button: one [Date.now()] reading, kept in [newSb]. *)
Definition createStoryboard (st : AppState) (now : Z) : AppState :=
  withActive st (fun p _ =>
    let newSb :=
      mkStoryboard (String.append "sb-" (decimal now))
        (String.append "Storyboard "
           (decimal (Z.of_nat (List.length (p_storyboards p)) + 1)))
        [] in
    let updated :=
      setActiveStoryboardId (setStoryboards p (p_storyboards p ++ [newSb]))
                            (sb_id newSb) in
    setProjects st
      (map (fun x => if String.eqb (p_id x) (activeProjectId st)
                     then updated else x)
           (projects st))).

(** A storyboard tab: [{ ...activeProject, activeStoryboardId: sb.id }]. *)
Definition selectStoryboard (st : AppState) (sbid : string) : AppState :=
  withActive st (fun p _ =>
    let updated := setActiveStoryboardId p sbid in
    setProjects st
      (map (fun x => if String.eqb (p_id x) (activeProjectId st)
                     then updated else x)
           (projects st))).

Definition setDeleteConfirmation (st : AppState) (dc : DeleteConfirmation)
  : AppState :=
  mkApp (projects st) (activeProjectId st) (isPlayerOpen st)
        (selectedShotId st) dc.

Definition requestDeleteProject (st : AppState) (projectId projectName : string)
  : AppState :=
  if (List.length (projects st) <=? 1)%nat then st
  else setDeleteConfirmation st
         (mkConfirmation true (Some DeleteProject) (Some projectId) projectName).

Definition requestDeleteStoryboard (st : AppState)
    (storyboardId storyboardName : string) : AppState :=
  withActive st (fun p _ =>
    if (List.length (p_storyboards p) <=? 1)%nat then st
    else setDeleteConfirmation st
           (mkConfirmation true (Some DeleteStoryboard) (Some storyboardId)
                           storyboardName)).

(** Truthiness of [id: string | null]. *)
Definition truthyId (i : option string) : option string :=
  match i with
  | Some EmptyString => None
  | other => other
  end.

(** [executeDelete].  Reading [remaining[0].id] of an empty array throws. *)
Definition executeDelete (st : AppState) : outcome AppState :=
  match dc_type (deleteConfirmation st), truthyId (dc_id (deleteConfirmation st)) with
  | Some DeleteProject, Some i =>
      let remaining :=
        filter (fun p => negb (String.eqb (p_id p) i)) (projects st) in
      if String.eqb (activeProjectId st) i then
        match remaining with
        | [] => TypeError
        | first :: _ =>
            Ok (mkApp remaining (p_id first) (isPlayerOpen st)
                      (selectedShotId st) closedConfirmation)
        end
      else
        Ok (mkApp remaining (activeProjectId st) (isPlayerOpen st)
                  (selectedShotId st) closedConfirmation)
  | Some DeleteStoryboard, Some i =>
      Ok (setDeleteConfirmation
            (withActive st (fun p _ =>
               let remainingStoryboards :=
                 filter (fun sb => negb (String.eqb (sb_id sb) i))
                        (p_storyboards p) in
               match remainingStoryboards with
               | [] => st
               | first :: _ =>
                   let updatedProject :=
                     setActiveStoryboardId
                       (setStoryboards p remainingStoryboards)
                       (if String.eqb (p_activeStoryboardId p) i
                        then sb_id first
                        else p_activeStoryboardId p) in
                   setProjects st
                     (map (fun x => if String.eqb (p_id x) (activeProjectId st)
                                    then updatedProject else x)
                          (projects st))
               end))
            closedConfirmation)
  | _, _ => Ok (setDeleteConfirmation st closedConfirmation)
  end.

(** The shot [handleAddShot] appends; [now] is the [Date.now()] reading. *)
Definition newShot (shots : list JsShot) (now : Z) : JsShot :=
  mkShot (String.append "shot-" (decimal now))
         (Z.of_nat (List.length shots) + 1) 2.0%float EmptyString
         (Some "Wide Shot") (Some EmptyString) None None.

Definition handleAddShot (st : AppState) (now : Z) : AppState :=
  withActive st (fun p sb =>
    let shots := sb_shots sb in
    let added := newShot shots now in
    mkApp (storeShots st p sb (shots ++ [added])) (activeProjectId st)
          (isPlayerOpen st) (Some (id added)) (deleteConfirmation st)).

(** [shots.filter(s => s.id !== shotId).map((s, i) => ...)]. *)
Definition remainingShots (shots : list JsShot) (shotId : string)
  : list JsShot :=
  renumber (filter (fun s => negb (String.eqb (id s) shotId)) shots).

Definition deleteShot (st : AppState) (shotId : string) : AppState :=
  withActive st (fun p sb =>
    setProjects st (storeShots st p sb (remainingShots (sb_shots sb) shotId))).

(** The array [handleMoveShot] builds after its [fromIndex === toIndex]
    test: two splices, then the renumbering.  With [fromIndex] past the end
    the first splice removes nothing, [movedShot] is [undefined] and the
    array would hold a value that is no [Shot]; the type [Shot[]] excludes
    it, and the result is [None]. *)
Definition updatedShots (shots : list JsShot) (fromIndex toIndex : nat)
  : option (list JsShot) :=
  let newShots := shots in
  let '(removed, newShots) := splice newShots fromIndex 1 [] in
  match removed with
  | movedShot :: _ =>
      let '(_, newShots) := splice newShots toIndex 0 [movedShot] in
      Some (renumber newShots)
  | [] => None
  end.

Definition handleMoveShot (st : AppState) (fromIndex toIndex : nat)
  : option AppState :=
  if Nat.eqb fromIndex toIndex then Some st
  else
    match activeProject st with
    | Some p =>
        match activeStoryboard p with
        | Some sb =>
            match updatedShots (sb_shots sb) fromIndex toIndex with
            | Some l => Some (setProjects st (storeShots st p sb l))
            | None => None
            end
        | None => Some st
        end
    | None => Some st
    end.

(** [Partial<Shot>]: for each property, [None] when the key is absent.  The
    optional properties may be present and hold [undefined] ([Some None]). *)
Record PartialShot : Type := mkPartial {
  u_id : option string;
  u_number : option Z;
  u_duration : option float;
  u_title : option string;
  u_cameraAngle : option (option string);
  u_imageUrl : option (option string);
  u_isGenerating : option (option bool);
  u_lastGeneratedPrompt : option (option string)
}.

Definition noUpdates : PartialShot :=
  mkPartial None None None None None None None None.

Definition override {A : Type} (old : A) (new : option A) : A :=
  match new with
  | Some v => v
  | None => old
  end.

(** [{ ...s, ...updates }]. *)
Definition merge (s : JsShot) (updates : PartialShot) : JsShot :=
  mkShot (override (id s) (u_id updates))
         (override (number s) (u_number updates))
         (override (duration s) (u_duration updates))
         (override (title s) (u_title updates))
         (override (cameraAngle s) (u_cameraAngle updates))
         (override (imageUrl s) (u_imageUrl updates))
         (override (isGenerating s) (u_isGenerating updates))
         (override (lastGeneratedPrompt s) (u_lastGeneratedPrompt updates)).

(** The updater [updateShot] passes to [setProjects]: it addresses the
    project whose id is the [activeProjectId] of the closure and, in it, the
    storyboard whose id is the project's [activeStoryboardId]. *)
Definition updateShot (activeProjectId : string) (shotId : string)
    (updates : PartialShot) (prevProjects : list Project) : list Project :=
  map (fun p =>
         if String.eqb (p_id p) activeProjectId then
           setStoryboards p
             (map (fun sb =>
                     if String.eqb (sb_id sb) (p_activeStoryboardId p) then
                       setShots sb
                         (map (fun s => if String.eqb (id s) shotId
                                        then merge s updates else s)
                              (sb_shots sb))
                     else sb)
                  (p_storyboards p))
         else p)
      prevProjects.

(** The patches the user interface issues through [onUpdate]. *)
Definition durationUpdate (d : float) : PartialShot :=
  mkPartial None None (Some d) None None None None None.

Definition cameraAngleUpdate (a : string) : PartialShot :=
  mkPartial None None None None (Some (Some a)) None None None.

Definition titleUpdate (t : string) : PartialShot :=
  mkPartial None None None (Some t) None None None None.

(** ** Image generation ([geminiService] and [forceRegenerate]) *)

(** The parts of the service's response that [generateShotSketch] reads. *)
Record InlineData : Type := mkInlineData {
  mimeType : string;
  data : string
}.

Record Part : Type := mkPart { inlineData : option InlineData }.

Record Content : Type := mkContent { parts : option (list Part) }.

Record Candidate : Type := mkCandidate { content : option Content }.

Record Response : Type := mkResponse { candidates : option (list Candidate) }.

(** What the awaited [generateContent] call does: it rejects, or resolves. *)
Inductive ApiOutcome : Type :=
| Rejected
| Resolved (r : Response).

(** The [for] loop over the parts: the first part with [inlineData]. *)
Fixpoint firstInlineData (ps : list Part) : option string :=
  match ps with
  | [] => None
  | p :: ps' =>
      match inlineData p with
      | Some d =>
          Some (String.append "data:"
                  (String.append (mimeType d)
                     (String.append ";base64," (data d))))
      | None => firstInlineData ps'
      end
  end.

(** The text of an aspect ratio, as the [Project] type spells it. *)
Definition ratioString (r : AspectRatio) : string :=
  match r with
  | R16_9 => "16:9"
  | R9_16 => "9:16"
  | R4_3 => "4:3"
  | R3_4 => "3:4"
  | R1_1 => "1:1"
  end.

(** The end of a line of the prompt template: a space, the line feed and the
    indentation of the next line. *)
Definition lineBreak : string :=
  String.append " " (String (ascii_of_nat 10) "        ").

(** The template literal [fullPrompt]. *)
Definition fullPrompt (prompt : string) : string :=
  String.concat lineBreak
    [ "A professional film storyboard scamp, hand-drawn with a graphite pencil.";
      "Style: Minimalist rough pencil sketch on white paper.";
      String.append "Subject: " (String.append prompt ".");
      "Details: Loose but purposeful sketchy lines, visible pencil strokes, hatching for shadows, architectural sketching style, high contrast, black and white only.";
      "Avoid photorealism. It should look like hand-drawn art on paper.";
      "Strictly NO 3D renders, NO photos, NO text, NO labels, and NO color." ].

(** [generateShotSketch]: [None] is [null].  [generateContent] stands for
    the client of the service, from the prompt and the aspect ratio to what
    the awaited call does (creating the client included).  Everything
    happens inside [try]; the rejected call and the [TypeError]s of
    [response.candidates[0].content.parts] on a missing candidate or content
    all reach [catch], which returns [null]. *)
Definition generateShotSketch (generateContent : string -> string -> ApiOutcome)
    (prompt aspectRatio : string) : option string :=
  match generateContent (fullPrompt prompt) aspectRatio with
  | Rejected => None
  | Resolved r =>
      match candidates r with
      | None => None
      | Some [] => None
      | Some (c :: _) =>
          match content c with
          | None => None
          | Some ct =>
              match parts ct with
              | None => None
              | Some ps => firstInlineData ps
              end
          end
      end
  end.

(** [x || undefined] on a string or [null]: the empty string is falsy. *)
Definition orUndefined (x : option string) : option string :=
  match x with
  | Some EmptyString => None
  | other => other
  end.

Section ForceRegenerate.
(** [String.prototype.trim], a primitive of the platform. *)
Variable trim : string -> string.

(** The patch before the call, and the patch after it. *)
Definition generatingUpdate : PartialShot :=
  mkPartial None None None None None (Some None) (Some (Some true)) None.

Definition generatedUpdate (generatedImage : option string)
    (promptText : string) : PartialShot :=
  mkPartial None None None None None
            (Some (orUndefined generatedImage)) (Some (Some false))
            (Some (Some promptText)).

(** What [forceRegenerate] holds at the [await]: the trimmed title, the
    prompt and the aspect ratio it sends, and the projects after the first
    [updateShot]. *)
Record Started : Type := mkStarted {
  promptText : string;
  finalPrompt : string;
  sentRatio : AspectRatio;
  generating : list Project
}.

(** [forceRegenerate] up to the [await]: [None] when it returns early (no
    such shot in the active storyboard, or a blank title). *)
Definition beginRegenerate (st : AppState) (shotId : string)
  : option Started :=
  match activeProject st with
  | None => None
  | Some p =>
      let currentShots :=
        match find (fun sb => String.eqb (sb_id sb) (p_activeStoryboardId p))
                   (p_storyboards p) with
        | Some sb => sb_shots sb
        | None => []
        end in
      match find (fun s => String.eqb (id s) shotId) currentShots with
      | None => None
      | Some shot =>
          let promptText := trim (title shot) in
          match promptText with
          | EmptyString => None
          | _ =>
              let cameraInstruction :=
                match cameraAngle shot with
                | Some EmptyString | None => EmptyString
                | Some a =>
                    String.append "Camera Angle: " (String.append a ". ")
                end in
              let finalPrompt := String.append cameraInstruction promptText in
              Some (mkStarted promptText finalPrompt (p_aspectRatio p)
                      (updateShot (activeProjectId st) shotId generatingUpdate
                                  (projects st)))
          end
      end
  end.

(** [forceRegenerate] after the [await], on the projects of that moment. *)
Definition finishRegenerate (activeProjectId : string) (shotId : string)
    (generatedImage : option string) (promptText : string)
    (prevProjects : list Project) : list Project :=
  updateShot activeProjectId shotId
             (generatedUpdate generatedImage promptText) prevProjects.

(** The whole flow with nothing else happening during the [await]. *)
Definition forceRegenerate
    (generateContent : string -> string -> ApiOutcome)
    (st : AppState) (shotId : string) : AppState :=
  match beginRegenerate st shotId with
  | None => st
  | Some started =>
      let generatedImage :=
        generateShotSketch generateContent (finalPrompt started)
                           (ratioString (sentRatio started)) in
      setProjects st
        (finishRegenerate (activeProjectId st) shotId generatedImage
                          (promptText started) (generating started))
  end.

(** The whole flow with what happens during the [await]: [during] takes the
    state left by the first [updateShot] to the state in which the call
    resolves.  The second [updateShot] passes an updater to [setProjects],
    so it is applied to the projects of that state; [activeProjectId] and
    [promptText] are those of the closure that started the flow. *)
Definition forceRegenerateDuring
    (generateContent : string -> string -> ApiOutcome)
    (during : AppState -> AppState)
    (st : AppState) (shotId : string) : AppState :=
  match beginRegenerate st shotId with
  | None => st
  | Some started =>
      let generatedImage :=
        generateShotSketch generateContent (finalPrompt started)
                           (ratioString (sentRatio started)) in
      let resolvedIn := during (setProjects st (generating started)) in
      setProjects resolvedIn
        (finishRegenerate (activeProjectId st) shotId generatedImage
                          (promptText started) (projects resolvedIn))
  end.

End ForceRegenerate.

(** The shot at position [k] of storyboard [j] of project [i]. *)
Definition shotAt (ps : list Project) (i j k : nat) : option JsShot :=
  match nth_error ps i with
  | Some p =>
      match nth_error (p_storyboards p) j with
      | Some sb => nth_error (sb_shots sb) k
      | None => None
      end
  | None => None
  end.

(** ** Invariants of the store *)

(** The numbers of a sequence are 1, 2, ..., its length, in order. *)
Definition dense (shots : list JsShot) : Prop :=
  map (@number float) shots = map Z.of_nat (seq 1 (List.length shots)).

Definition allDense (ps : list Project) : Prop :=
  forall p sb, In p ps -> In sb (p_storyboards p) -> dense (sb_shots sb).

(** A project owns a storyboard, and its [activeStoryboardId] is the id of
    one it owns. *)
Definition activeOwned (p : Project) : Prop :=
  p_storyboards p <> [] /\
  In (p_activeStoryboardId p) (map sb_id (p_storyboards p)).

Definition activeOwnedb (p : Project) : bool :=
  negb (Nat.eqb (List.length (p_storyboards p)) 0) &&
  existsb (String.eqb (p_activeStoryboardId p)) (map sb_id (p_storyboards p)).

(** The Play Animatic button: [setIsPlayerOpen(true)], whatever the shots;
    [App] then renders [<AnimaticPlayer shots={shots} ... />]. *)
Definition openPlayer (st : AppState) : AppState :=
  mkApp (projects st) (activeProjectId st) true (selectedShotId st)
        (deleteConfirmation st).

(** ** Auxiliary definitions for the statements *)

(** A shot with the given title, number and duration and nothing else. *)
Definition plainShot {num : Type} (t : string) (n : Z) (d : num) : Shot num :=
  mkShot t n d t None None None None.

(** [shotStartTime(i)]: the durations of the shots before position [i]. *)
Definition startAt {num : Type} {N : Number num} (shots : list (Shot num))
    (i : nat) : num :=
  sumDurations (firstn i shots).

(** A boolean test holds of the player after each of the tick counts
    [lo], ..., [lo + len - 1]. *)
Definition afterTicks {num : Type} {N : Number num} (shots : list (Shot num))
    (lo len : nat) (test : PlayerState num -> bool) : bool :=
  forallb (fun n => match ticks shots n with
                    | Ok st => test st
                    | TypeError => false
                    end)
          (seq lo len).

(** Two binary64 numbers differ by at most one tick interval. *)
Definition withinOneTick (x y : float) : bool :=
  PrimFloat.leb (PrimFloat.abs (x - y)) tickSeconds.

(** Where element [i] of the result of moving [fromIndex] to [toIndex] comes
    from, as removal followed by insertion prescribes. *)
Definition sourceIndex (fromIndex toIndex i : nat) : nat :=
  if Nat.eqb i toIndex then fromIndex
  else if Nat.ltb fromIndex toIndex then
         (if Nat.ltb i fromIndex then i
          else if Nat.ltb i toIndex then i + 1 else i)
       else
         (if Nat.ltb i toIndex then i
          else if Nat.leb i fromIndex then i - 1 else i).

(** The numbers of all shots, project by project and storyboard by
    storyboard. *)
Definition numbersOf (ps : list Project) : list (list (list Z)) :=
  map (fun p => map (fun sb => map (@number float) (sb_shots sb))
                    (p_storyboards p))
      ps.

(** An application whose active storyboard holds three shots titled A, B
    and C, numbered 1, 2 and 3. *)
Definition shotsABC : list JsShot :=
  [ plainShot "A" 1 3.5%float; plainShot "B" 2 2.0%float;
    plainShot "C" 3 4.5%float ].

Definition appABC : AppState :=
  mkApp [ mkProject "p-1" "Film" [ mkStoryboard "sb-1" "Board" shotsABC ]
                    "sb-1" R16_9 ]
        "p-1" false None closedConfirmation.

(** The application after a reload that finds only a second project in
    storage: [activeProjectId] starts as p-1 on every load, and no stored
    project has that id once the default project has been deleted. *)
Definition reloadedApp : AppState :=
  mkApp [ mkProject "p-2" "Second film"
            [ mkStoryboard "sb-2" "Board" shotsABC ] "sb-2" R16_9 ]
        "p-1" false (Some "1") closedConfirmation.

(** [App] mounted on a page load that finds the projects [saved] in
    storage: the initialisers of its [useState] cells, with
    [useState('p-1')] for [activeProjectId] whatever the projects are. *)
Definition afterReload (saved : list Project) : AppState :=
  mkApp saved "p-1" false (Some "1") closedConfirmation.

(** A session that leaves only a second project in storage: New Project,
    three shots added and titled A, B and C, then the default project
    deleted through the confirmation dialog. *)
Definition secondProjectSession : outcome AppState :=
  let st := handleNewProject initialApp 2 2 2 in
  let st := handleAddShot (handleAddShot (handleAddShot st 11) 12) 13 in
  let retitle := fun (shotId t : string) (x : AppState) =>
    setProjects x (updateShot (activeProjectId x) shotId (titleUpdate t)
                              (projects x)) in
  let st := retitle "shot-13" "C" (retitle "shot-12" "B"
              (retitle "shot-11" "A" st)) in
  executeDelete (requestDeleteProject st "p-1" "The Midnight Discovery").

(** The inline player after [n] timeouts of uninterrupted playback. *)
Definition timeouts (shots : list JsShot) (n : nat) : InlinePlayer.State :=
  Nat.iter n (InlinePlayer.onTimeout shots) (InlinePlayer.mount shots).

(** ** Browser storage ([App.tsx], the clean-up effect) *)

Definition STORAGE_KEY : string := "sb_projects_v13".

Definition USER_STORAGE_KEY : string := "sb_user".

(** [localStorage]: keys with their values. *)
Definition Storage : Type := list (string * string).

(** [localStorage.getItem(key)]: [None] is [null]. *)
Definition getItem (key : string) (s : Storage) : option string :=
  option_map snd (find (fun kv => String.eqb (fst kv) key) s).

(** [localStorage.removeItem(key)]. *)
Definition removeItem (key : string) (s : Storage) : Storage :=
  filter (fun kv => negb (String.eqb (fst kv) key)) s.

(** [key.startsWith('sb_projects_v') && key !== STORAGE_KEY]. *)
Definition oldVersion (key : string) : bool :=
  String.prefix "sb_projects_v" key && negb (String.eqb key STORAGE_KEY).

(** [Object.keys(localStorage).forEach(key => ...)]: the keys are read
    once, then each old one is removed from the storage. *)
Definition cleanupOldVersions (s : Storage) : Storage :=
  fold_left (fun acc key => if oldVersion key then removeItem key acc else acc)
            (map fst s) s.

(** ** The download name of a sketch ([components/ShotCard]) *)

(** JavaScript strings are sequences of UTF-16 code units.  The strings of
    this development hold text in UTF-8, so the code units of a title are
    read off its bytes, as UTF-8 lays them out: a byte below 128 is an ASCII
    character and one code unit; the lead byte of a two- or three-byte sequence stands for one code
    unit outside ASCII, the lead byte of a four-byte sequence for the two
    surrogates of a pair, and continuation bytes add nothing.  Of a code
    unit outside ASCII the slug needs no more than that it is one: [None]. *)
Fixpoint codeUnits (s : string) : list (option ascii) :=
  match s with
  | EmptyString => []
  | String c s' =>
      let n := nat_of_ascii c in
      if (n <? 128)%nat then Some c :: codeUnits s'
      else if (n <? 192)%nat then codeUnits s'
      else if (n <? 240)%nat then None :: codeUnits s'
      else None :: None :: codeUnits s'
  end.

(** The class [a-z0-9] under the flag [i]. *)
Definition isAlnum (c : ascii) : bool :=
  let n := nat_of_ascii c in
  ((48 <=? n) && (n <=? 57) || (65 <=? n) && (n <=? 90) ||
   (97 <=? n) && (n <=? 122))%nat.

(** [.replace(/[^a-z0-9]/gi, '_')], one code unit at a time: without the
    flag [u] the pattern is matched against single code units, and under
    the flag [i] a code unit outside ASCII is never taken for an ASCII
    letter, so it is replaced. *)
Definition replaceOther (u : option ascii) : ascii :=
  match u with
  | Some c => if isAlnum c then c else "_"%char
  | None => "_"%char
  end.

(** [toLowerCase] on what the replacement leaves: letters A to Z become a
    to z; digits, small letters and the underscore stay. *)
Definition lowerAscii (c : ascii) : ascii :=
  let n := nat_of_ascii c in
  if ((65 <=? n) && (n <=? 90))%nat then ascii_of_nat (n + 32) else c.

(** [title.slice(0, 20).replace(/[^a-z0-9]/gi, '_').toLowerCase()]. *)
Definition slugOf (t : string) : string :=
  string_of_list_ascii
    (map lowerAscii (map replaceOther (firstn 20 (codeUnits t)))).

(** [s.padStart(2, '0')]. *)
Definition padStart2 (s : string) : string :=
  match s with
  | EmptyString => "00"
  | String c EmptyString => String "0"%char s
  | _ => s
  end.

(** [handleDownload]: the [download] attribute of the link it clicks;
    [None] when it returns early because the shot has no image.
    [String(shot.number)] is the decimal numeral of the number as long as
    the number is an integer that a binary64 value holds exactly, of
    magnitude at most 2^53; the name is stated for such numbers only. *)
Definition downloadName (shot : JsShot) : option string :=
  match imageUrl shot with
  | None | Some EmptyString => None
  | Some _ =>
      Some (String.append "shot-"
              (String.append (padStart2 (decimal (number shot)))
                 (String.append "-"
                    (String.append (slugOf (title shot)) ".png"))))
  end.

Fixpoint allChars (test : ascii -> bool) (s : string) : bool :=
  match s with
  | EmptyString => true
  | String c s' => test c && allChars test s'
  end.

(** A digit, a small letter or the underscore. *)
Definition safeChar (c : ascii) : bool :=
  let n := nat_of_ascii c in
  ((48 <=? n) && (n <=? 57) || (97 <=? n) && (n <=? 122) || (n =? 95))%nat.

(** * Properties *)

(** ** The animatic player *)

Section PlayerFacts.
Context {num : Type} {N : Number num}.
Variable shots : list (Shot num).

Lemma startAt_succ (i : nat) (cur : Shot num) :
  nth_error shots i = Some cur ->
  startAt shots (S i) = add (startAt shots i) (duration cur).
Proof.
  intros Hnth. unfold startAt, sumDurations.
  assert (Hsplit : firstn (S i) shots = firstn i shots ++ [cur]).
  { clear N. revert i Hnth. induction shots as [|s l IH]; intros [|i] Hnth;
      simpl in *; try discriminate.
    - now inversion Hnth.
    - now rewrite (IH i Hnth). }
  rewrite Hsplit, fold_left_app. reflexivity.
Qed.

Lemma startAt_length : startAt shots (List.length shots) = totalDuration shots.
Proof. unfold startAt, totalDuration. now rewrite firstn_all. Qed.

Lemma notLast_true (st : PlayerState num) :
  notLast shots st = true <-> currentShotIndex st + 1 < List.length shots.
Proof. unfold notLast. rewrite Z.ltb_lt. lia. Qed.

Lemma notLast_false (st : PlayerState num) :
  notLast shots st = false <-> ~ currentShotIndex st + 1 < List.length shots.
Proof. unfold notLast. rewrite Z.ltb_ge. lia. Qed.

(** One step keeps the index inside the sequence and does not throw. *)
Lemma step_in_range (st : PlayerState num) (e : Event) :
  currentShotIndex st < List.length shots ->
  exists st', step shots st e = Ok st' /\
              currentShotIndex st' < List.length shots.
Proof.
  intros Hlt. destruct e; simpl.
  - destruct (isPlaying st); [|now exists st].
    unfold onInterval, currentShot.
    destruct (nth_error shots (currentShotIndex st)) as [cur|] eqn:Hcur.
    + destruct (geb _ _).
      * destruct (notLast shots st) eqn:Hlast.
        -- apply notLast_true in Hlast. eexists; split; [reflexivity|].
           simpl. lia.
        -- eexists; split; [reflexivity|]. exact Hlt.
      * eexists; split; [reflexivity|]. exact Hlt.
    + apply nth_error_None in Hcur. lia.
  - eexists; split; [reflexivity|]. exact Hlt.
Qed.

Lemma run_in_range (es : list Event) :
  forall st, currentShotIndex st < List.length shots ->
  exists st', run shots es st = Ok st' /\
              currentShotIndex st' < List.length shots.
Proof.
  induction es as [|e es IH]; intros st Hlt; simpl.
  - now exists st.
  - destruct (step_in_range st e Hlt) as (st1 & -> & Hlt1).
    exact (IH st1 Hlt1).
Qed.

Lemma run_app (es1 es2 : list Event) :
  forall st st1, run shots es1 st = Ok st1 ->
                 run shots (es1 ++ es2) st = run shots es2 st1.
Proof.
  induction es1 as [|e es1 IH]; intros st st1 H; simpl in *.
  - now inversion H.
  - destruct (step shots st e) as [st'|]; [|discriminate].
    exact (IH st' st1 H).
Qed.

(** A paused player is not moved by ticks. *)
Lemma run_ticks_paused (n : nat) (st : PlayerState num) :
  isPlaying st = false -> run shots (repeat Tick n) st = Ok st.
Proof.
  intros Hp. induction n as [|n IH]; simpl; [reflexivity|].
  now rewrite Hp.
Qed.

End PlayerFacts.

(** C1 (as amended).  While the player is open over a sequence and
    [isPlaying] is true, a tick computes the elapsed time plus the tick
    interval and compares it with the end time of the current shot.  Below
    the end time, the elapsed time becomes that sum and nothing else
    changes.  At or past it, when the current shot is not the last one the
    index grows by exactly one and the elapsed time becomes the sum; when it
    is the last one [isPlaying] becomes false and the elapsed time keeps its
    previous value.  In every case the index grows by at most one. *)
Theorem tick_advances_or_stops {num : Type} {N : Number num}
    (shots : list (Shot num)) (st : PlayerState num) (cur : Shot num) :
  isPlaying st = true ->
  currentShot shots st = Some cur ->
  let nextTime := add (elapsedTime st) tickSeconds in
  let shotEndTime := add (startAt shots (currentShotIndex st)) (duration cur) in
  exists st',
    step shots st Tick = Ok st' /\
    (geb nextTime shotEndTime = false ->
       st' = mkPlayer (currentShotIndex st) true nextTime) /\
    (geb nextTime shotEndTime = true ->
       currentShotIndex st + 1 < List.length shots ->
       st' = mkPlayer (currentShotIndex st + 1) true nextTime) /\
    (geb nextTime shotEndTime = true ->
       ~ currentShotIndex st + 1 < List.length shots ->
       st' = mkPlayer (currentShotIndex st) false (elapsedTime st)) /\
    currentShotIndex st <= currentShotIndex st' <= currentShotIndex st + 1.
Proof.
  intros Hplay Hcur nextTime shotEndTime.
  unfold step. rewrite Hplay. unfold onInterval. rewrite Hcur.
  fold nextTime. change (currentShotStartTime shots st)
    with (startAt shots (currentShotIndex st)). fold shotEndTime.
  destruct (geb nextTime shotEndTime) eqn:Hge.
  - destruct (notLast shots st) eqn:Hlast.
    + apply notLast_true in Hlast.
      eexists; split; [reflexivity|]. simpl.
      split; [discriminate|]. split; [|split; [|lia]].
      * intros _ _. now rewrite Hplay.
      * intros _ Hn. contradiction.
    + apply notLast_false in Hlast.
      eexists; split; [reflexivity|]. simpl.
      split; [discriminate|]. split; [|split; [|lia]].
      * intros _ Hn. contradiction.
      * reflexivity.
  - eexists; split; [reflexivity|]. simpl.
    split; [|split; [|split; [|lia]]]; try discriminate.
    intros _. now rewrite Hplay.
Qed.

Lemma tick_advances_or_stops_witness :
  let st := @initialState float binary64 in
  isPlaying st = true /\
  currentShot DEFAULT_SHOTS st = nth_error DEFAULT_SHOTS 0 /\
  exists st',
    step DEFAULT_SHOTS st Tick = Ok st' /\
    currentShotIndex st <= currentShotIndex st' <= currentShotIndex st + 1.
Proof.
  split; [reflexivity|]. split; [reflexivity|].
  destruct (@tick_advances_or_stops float binary64 DEFAULT_SHOTS initialState
              (mkShot "1" 1 3.5%float
                 "Wide establishing shot of a dense, misty forest at midnight."
                 (Some "Wide Shot") (Some EmptyString) None (Some EmptyString))
              eq_refl eq_refl)
    as (st' & Hstep & _ & _ & _ & Hidx).
  exists st'. split; [exact Hstep | exact Hidx].
Defined.

(** C1, as stated, fails on the tick that ends playback: over the one-shot
    sequence of duration 0.1 the first tick reaches the end of the last shot,
    stops the player and leaves the elapsed time at 0 instead of raising it
    by the tick interval. *)
Lemma tick_at_end_does_not_advance_clock :
  let shots := [plainShot "A" 1 0.1%float] in
  let st := @initialState float binary64 in
  isPlaying st = true /\
  exists st',
    step shots st Tick = Ok st' /\
    isPlaying st' = false /\
    elapsedTime st' = elapsedTime st /\
    PrimFloat.eqb (elapsedTime st') (add (elapsedTime st) tickSeconds) = false.
Proof.
  split; [reflexivity|].
  eexists. split; [vm_compute; reflexivity|].
  repeat split; vm_compute; reflexivity.
Qed.

(** C2.  Over a non-empty sequence, whatever ticks and play/pause presses
    the open player receives, no step throws and the current index stays
    within the sequence, so that [shots[currentShotIndex]] is a shot. *)
Theorem current_index_in_range {num : Type} {N : Number num}
    (shots : list (Shot num)) (es : list Event) :
  shots <> [] ->
  exists st,
    run shots es initialState = Ok st /\
    0 <= currentShotIndex st < List.length shots /\
    exists cur, currentShot shots st = Some cur.
Proof.
  intros Hne.
  assert (H0 : currentShotIndex (@initialState num N) < List.length shots).
  { destruct shots; [contradiction|simpl; lia]. }
  destruct (@run_in_range _ _ shots es initialState H0) as (st & Hrun & Hlt).
  exists st. split; [exact Hrun|]. split; [lia|].
  unfold currentShot.
  destruct (nth_error shots (currentShotIndex st)) as [cur|] eqn:Hcur.
  - now exists cur.
  - apply nth_error_None in Hcur. lia.
Qed.

Lemma current_index_in_range_witness :
  DEFAULT_SHOTS <> [] /\
  exists st,
    run DEFAULT_SHOTS [Tick; TogglePlay; Tick; TogglePlay; Tick]
        (@initialState float binary64) = Ok st /\
    0 <= currentShotIndex st < List.length DEFAULT_SHOTS /\
    exists cur, currentShot DEFAULT_SHOTS st = Some cur.
Proof.
  split; [discriminate|].
  apply (@current_index_in_range float binary64 DEFAULT_SHOTS
           [Tick; TogglePlay; Tick; TogglePlay; Tick]).
  discriminate.
Defined.

Lemma afterTicks_spec {num : Type} {N : Number num} (shots : list (Shot num))
    (lo len : nat) (test : PlayerState num -> bool) :
  afterTicks shots lo len test = true ->
  forall n, lo <= n < lo + len ->
  exists st, ticks shots n = Ok st /\ test st = true.
Proof.
  unfold afterTicks. rewrite forallb_forall. intros H n Hn.
  specialize (H n). rewrite in_seq in H. specialize (H Hn).
  destruct (ticks shots n) as [st|]; [|discriminate].
  now exists st.
Qed.

Lemma ticks_after_stop {num : Type} {N : Number num} (shots : list (Shot num))
    (n0 : nat) (st : PlayerState num) :
  ticks shots n0 = Ok st -> isPlaying st = false ->
  forall n, n0 <= n -> ticks shots n = Ok st.
Proof.
  intros Hrun Hstop n Hn. unfold ticks in *.
  replace n with (n0 + (n - n0)) by lia.
  rewrite repeat_app, (@run_app _ _ shots _ _ _ _ Hrun).
  now apply run_ticks_paused.
Qed.

(** C3.  Playing the default sequence, of durations 3.5, 2.0 and 4.5, from
    the initial state in binary64 arithmetic: the index is 0 for the first 34
    ticks and becomes 1 on tick 35, with the elapsed time within one tick
    interval of 3.5; it stays 1 until it becomes 2 on tick 56, with the
    elapsed time within one tick interval of 5.5; playback goes on until tick
    101 sets [isPlaying] to false with the elapsed time within one tick
    interval of 10.0; and from then on the state no longer changes, so the
    index never passes 2. *)
Theorem default_sequence_playback :
  map (@duration float) DEFAULT_SHOTS = [3.5; 2.0; 4.5]%float /\
  (forall n, n < 35 ->
     exists st, ticks DEFAULT_SHOTS n = Ok st /\
                currentShotIndex st = 0 /\ isPlaying st = true) /\
  (exists st, ticks DEFAULT_SHOTS 35 = Ok st /\
              currentShotIndex st = 1 /\ isPlaying st = true /\
              withinOneTick (elapsedTime st) 3.5 = true) /\
  (forall n, 35 <= n < 56 ->
     exists st, ticks DEFAULT_SHOTS n = Ok st /\
                currentShotIndex st = 1 /\ isPlaying st = true) /\
  (exists st, ticks DEFAULT_SHOTS 56 = Ok st /\
              currentShotIndex st = 2 /\ isPlaying st = true /\
              withinOneTick (elapsedTime st) 5.5 = true) /\
  (forall n, 56 <= n < 101 ->
     exists st, ticks DEFAULT_SHOTS n = Ok st /\
                currentShotIndex st = 2 /\ isPlaying st = true) /\
  (forall n, 101 <= n ->
     exists st, ticks DEFAULT_SHOTS n = Ok st /\
                currentShotIndex st = 2 /\ isPlaying st = false /\
                withinOneTick (elapsedTime st) 10.0 = true).
Proof.
  assert (Hphase : forall lo len i,
            afterTicks DEFAULT_SHOTS lo len
              (fun st => Nat.eqb (currentShotIndex st) i && isPlaying st) = true ->
            forall n, lo <= n < lo + len ->
            exists st, ticks DEFAULT_SHOTS n = Ok st /\
                       currentShotIndex st = i /\ isPlaying st = true).
  { intros lo len i Hall n Hn.
    destruct (@afterTicks_spec _ _ _ _ _ _ Hall n Hn) as (st & Hst & Htest).
    apply andb_prop in Htest. destruct Htest as [Hi Hp].
    apply Nat.eqb_eq in Hi. now exists st. }
  split; [reflexivity|].
  split.
  { intros n Hn. apply (Hphase 0 35 0); [vm_compute; reflexivity|lia]. }
  split.
  { eexists. split; [vm_compute; reflexivity|].
    repeat split; vm_compute; reflexivity. }
  split.
  { intros n Hn. apply (Hphase 35 21 1); [vm_compute; reflexivity|lia]. }
  split.
  { eexists. split; [vm_compute; reflexivity|].
    repeat split; vm_compute; reflexivity. }
  split.
  { intros n Hn. apply (Hphase 56 45 2); [vm_compute; reflexivity|lia]. }
  intros n Hn.
  assert (H101 : exists st, ticks DEFAULT_SHOTS 101 = Ok st /\
                   currentShotIndex st = 2 /\ isPlaying st = false /\
                   withinOneTick (elapsedTime st) 10.0 = true).
  { eexists. split; [vm_compute; reflexivity|].
    repeat split; vm_compute; reflexivity. }
  destruct H101 as (st & Hst & Hi & Hp & He).
  exists st. split; [|now repeat split].
  exact (@ticks_after_stop _ _ DEFAULT_SHOTS 101 st Hst Hp n Hn).
Qed.

(** ** The elapsed time while a shot is current *)

Section WhileCurrent.
Context {num : Type} {N : Number num}.
Variable shots : list (Shot num).

(** A step never lowers the index, and when it keeps the index it either
    keeps the elapsed time or leaves it below the end of the current shot:
    the test [nextTime >= shotEndTime] was false. *)
Lemma step_while_current (st st' : PlayerState num) (e : Event) :
  step shots st e = Ok st' ->
  currentShotIndex st <= currentShotIndex st' /\
  (currentShotIndex st' = currentShotIndex st ->
   elapsedTime st' = elapsedTime st \/
   geb (elapsedTime st') (startAt shots (S (currentShotIndex st))) = false).
Proof.
  destruct e; simpl.
  - destruct (isPlaying st).
    + unfold onInterval, currentShot.
      destruct (nth_error shots (currentShotIndex st)) as [cur|] eqn:Hcur;
        [|discriminate].
      rewrite (startAt_succ shots _ Hcur).
      change (currentShotStartTime shots st)
        with (startAt shots (currentShotIndex st)).
      destruct (geb _ _) eqn:Hge.
      * destruct (notLast shots st); intros H; inversion H; subst st'; simpl;
          (split; [lia|]); intros Hi; [lia|now left].
      * intros H; inversion H; subst st'; simpl.
        split; [lia|]. intros _. now right.
    + intros H; inversion H; subst st'. split; [lia|]. now left.
  - intros H; inversion H; subst st'; simpl. split; [lia|]. now left.
Qed.

Lemma run_while_current (es : list Event) :
  forall st st', run shots es st = Ok st' ->
  currentShotIndex st <= currentShotIndex st' /\
  (currentShotIndex st' = currentShotIndex st ->
   elapsedTime st' = elapsedTime st \/
   geb (elapsedTime st') (startAt shots (S (currentShotIndex st))) = false).
Proof.
  induction es as [|e es IH]; intros st st' Hrun; simpl in Hrun.
  - inversion Hrun; subst st'. split; [lia|]. now left.
  - destruct (step shots st e) as [st1|] eqn:Hstep; [|discriminate].
    destruct (step_while_current _ _ Hstep) as [Hle1 Hsame1].
    destruct (IH _ _ Hrun) as [Hle2 Hsame2].
    split; [lia|]. intros Hi.
    assert (Hi1 : currentShotIndex st1 = currentShotIndex st) by lia.
    assert (Hi2 : currentShotIndex st' = currentShotIndex st1) by lia.
    destruct (Hsame2 Hi2) as [Heq|Hlow].
    + rewrite Heq. exact (Hsame1 Hi1).
    + right. rewrite <- Hi1. exact Hlow.
Qed.

End WhileCurrent.

(** The comparison of binary64 numbers is transitive (NaN is below and
    above nothing). *)
Lemma SFleb_trans (f1 f2 f3 : spec_float) :
  SFleb f1 f2 = true -> SFleb f2 f3 = true -> SFleb f1 f3 = true.
Proof.
  unfold SFleb, SFcompare.
  destruct f1 as [s1|s1| |s1 m1 e1], f2 as [s2|s2| |s2 m2 e2],
           f3 as [s3|s3| |s3 m3 e3];
    try destruct s1; try destruct s2; try destruct s3;
    try (intros; reflexivity); try (intros; discriminate).
  all: destruct (Z.compare_spec e1 e2); destruct (Z.compare_spec e2 e3);
    destruct (Z.compare_spec e1 e3); try lia;
    try (intros; reflexivity); try (intros; discriminate).
  all: subst; rewrite ?Pos.compare_cont_spec; simpl;
    destruct (Pos.compare_spec m1 m2); destruct (Pos.compare_spec m2 m3);
    destruct (Pos.compare_spec m1 m3); try lia;
    try (intros; reflexivity); try (intros; discriminate).
Qed.

Lemma leb_trans (x y z : float) :
  PrimFloat.leb x y = true -> PrimFloat.leb y z = true ->
  PrimFloat.leb x z = true.
Proof. rewrite !leb_spec. apply SFleb_trans. Qed.

(** C10 (as amended).  On the tick that ends playback, when the elapsed time
    plus the tick interval reaches the end of the last shot, the player sets
    [isPlaying] to false and keeps the elapsed time it had.  Consequently,
    after any ticks and play/pause presses that leave the current shot the
    same, so from the moment a shot becomes current for as long as it stays
    current, the elapsed time either still has the value it started from or
    is below the end of that shot: the test [>=] against it is false.
    While the last shot is current no step throws, the index stays, and
    that end is the total duration.  These three hold in every arithmetic.
    In binary64, when no shot ends after the total duration, the elapsed
    time is likewise below the total duration while any shot is current,
    unless it still has the value it started from. *)
Theorem ending_tick_keeps_elapsed_time :
  (forall (num : Type) (N : Number num) (shots : list (Shot num))
          (st : PlayerState num) (cur : Shot num),
     isPlaying st = true ->
     currentShot shots st = Some cur ->
     geb (add (elapsedTime st) tickSeconds)
         (add (startAt shots (currentShotIndex st)) (duration cur)) = true ->
     ~ currentShotIndex st + 1 < List.length shots ->
     step shots st Tick =
       Ok (mkPlayer (currentShotIndex st) false (elapsedTime st))) /\
  (forall (num : Type) (N : Number num) (shots : list (Shot num))
          (es : list Event) (st st' : PlayerState num),
     run shots es st = Ok st' ->
     currentShotIndex st' = currentShotIndex st ->
     elapsedTime st' = elapsedTime st \/
     geb (elapsedTime st') (startAt shots (S (currentShotIndex st))) = false) /\
  (forall (num : Type) (N : Number num) (shots : list (Shot num))
          (es : list Event) (st : PlayerState num),
     currentShotIndex st + 1 = List.length shots ->
     exists st',
       run shots es st = Ok st' /\
       currentShotIndex st' = currentShotIndex st /\
       (elapsedTime st' = elapsedTime st \/
        geb (elapsedTime st') (totalDuration shots) = false)) /\
  (forall (shots : list JsShot) (es : list Event) (st st' : PlayerState float),
     (forall i, i < List.length shots ->
        PrimFloat.leb (startAt shots (S i)) (totalDuration shots) = true) ->
     currentShotIndex st < List.length shots ->
     run shots es st = Ok st' ->
     currentShotIndex st' = currentShotIndex st ->
     elapsedTime st' = elapsedTime st \/
     PrimFloat.leb (totalDuration shots) (elapsedTime st') = false).
Proof.
  split; [|split; [|split]].
  - intros num N shots st cur Hplay Hcur Hge Hlast.
    apply notLast_false in Hlast.
    unfold step. rewrite Hplay. unfold onInterval. rewrite Hcur.
    change (currentShotStartTime shots st)
      with (startAt shots (currentShotIndex st)).
    now rewrite Hge, Hlast.
  - intros num N shots es st st' Hrun Hi.
    exact (proj2 (run_while_current shots es _ Hrun) Hi).
  - intros num N shots es st Hlast.
    assert (Hlt : currentShotIndex st < List.length shots) by lia.
    destruct (@run_in_range _ _ shots es st Hlt) as (st' & Hrun & Hlt').
    destruct (run_while_current shots es _ Hrun) as [Hle Hsame].
    assert (Hi : currentShotIndex st' = currentShotIndex st) by lia.
    exists st'. split; [exact Hrun|]. split; [exact Hi|].
    rewrite <- (startAt_length shots), <- Hlast.
    replace (currentShotIndex st + 1) with (S (currentShotIndex st)) by lia.
    exact (Hsame Hi).
  - intros shots es st st' Hends Hlt Hrun Hi.
    destruct (proj2 (run_while_current shots es _ Hrun) Hi) as [Heq|Hlow];
      [now left|right].
    cbn [geb binary64] in Hlow.
    destruct (PrimFloat.leb (totalDuration shots) (elapsedTime st')) eqn:Htot;
      [|reflexivity].
    rewrite (leb_trans (Hends _ Hlt) Htot) in Hlow. discriminate.
Qed.

Lemma ending_tick_keeps_elapsed_time_witness :
  exists st st',
    ticks DEFAULT_SHOTS 35 = Ok st /\
    currentShotIndex st = 1 /\
    run DEFAULT_SHOTS (repeat Tick 10 ++ [TogglePlay; Tick]) st = Ok st' /\
    (elapsedTime st' = elapsedTime st \/
     PrimFloat.leb (totalDuration DEFAULT_SHOTS) (elapsedTime st') = false).
Proof.
  eexists. eexists.
  split; [vm_compute; reflexivity|]. split; [reflexivity|].
  split; [vm_compute; reflexivity|].
  refine (proj2 (proj2 (proj2 ending_tick_keeps_elapsed_time))
            DEFAULT_SHOTS (repeat Tick 10 ++ [TogglePlay; Tick]) _ _ _ _ _ _).
  - intros i Hi. simpl in Hi.
    destruct i as [|[|[|i]]]; [| | |lia]; vm_compute; reflexivity.
  - simpl. lia.
  - vm_compute. reflexivity.
  - reflexivity.
Defined.

(** C10, as stated, fails in the arithmetic of the program.  Over two shots
    of 0.05 s, both positive, the first tick moves to the second shot and
    raises the elapsed time to 0.1, which is the total duration and not
    strictly below it.  Shots no shorter than the tick interval do not
    prevent it: over shots of 0.10000000000000002 s and 0.1 s the second
    tick moves to the second shot with the elapsed time 0.2, and the total
    duration, rounded, is 0.2 as well.  In both runs the player is still
    playing. *)
Lemma elapsed_time_reaches_total_duration :
  (let shots := [plainShot "A" 1 0.05%float; plainShot "B" 2 0.05%float] in
   forallb (fun s => PrimFloat.ltb 0 (duration s)) shots = true /\
   exists st, ticks shots 1 = Ok st /\
              currentShotIndex st = 1 /\ isPlaying st = true /\
              PrimFloat.ltb (elapsedTime st) (totalDuration shots) = false /\
              PrimFloat.eqb (elapsedTime st) (totalDuration shots) = true) /\
  (let shots := [plainShot "A" 1 0.10000000000000002%float;
                 plainShot "B" 2 0.1%float] in
   forallb (fun s => PrimFloat.leb tickSeconds (duration s)) shots = true /\
   exists st, ticks shots 2 = Ok st /\
              currentShotIndex st = 1 /\ isPlaying st = true /\
              PrimFloat.ltb (elapsedTime st) (totalDuration shots) = false /\
              PrimFloat.eqb (elapsedTime st) (totalDuration shots) = true).
Proof.
  split.
  - split; [vm_compute; reflexivity|].
    eexists. split; [vm_compute; reflexivity|].
    repeat split; vm_compute; reflexivity.
  - split; [vm_compute; reflexivity|].
    eexists. split; [vm_compute; reflexivity|].
    repeat split; vm_compute; reflexivity.
Qed.

(** C4 (the code at the failing input).  The render of the player throws
    whenever the current shot is undefined, so over the empty sequence it
    throws in every state; and the empty sequence reaches it: after New Film
    the active storyboard has no shots, Play Animatic opens the player all
    the same, and its first render throws instead of doing nothing.  The
    inline player of [App.tsx] guards every read of the current shot and does
    not throw, but it is no no-op either: it mounts in the playing state with
    a timeout of the default 2 s, which then sets [isPlaying] to false. *)
Theorem open_player_on_empty_sequence_throws :
  (forall (num : Type) (N : Number num) (st : PlayerState num),
     render [] st = TypeError) /\
  (let app := openPlayer (handleNewProject initialApp 1000 1000 1000) in
   isPlayerOpen app = true /\
   shotsOf app = [] /\
   render (shotsOf app) (@initialState float binary64) = TypeError) /\
  (InlinePlayer.mount [] =
     InlinePlayer.mkState 0 true (Some (InlinePlayer.mkTimer 2000 0)) /\
   InlinePlayer.onTimeout [] (InlinePlayer.mount []) =
     InlinePlayer.mkState 0 false None).
Proof.
  split; [|split].
  - intros num N st. unfold render, currentShot.
    now destruct (currentShotIndex st).
  - repeat split; vm_compute; reflexivity.
  - split; vm_compute; reflexivity.
Qed.

(** ** The inline player *)



(** ** Shot sequences *)

Lemma nth_error_mapi_from {A B : Type} (f : A -> nat -> B) (l : list A) :
  forall k i, nth_error (mapi_from f k l) i =
              option_map (fun a => f a (k + i)) (nth_error l i).
Proof.
  induction l as [|a l IH]; intros k [|i]; simpl; try reflexivity.
  - now rewrite Nat.add_0_r.
  - rewrite IH. now rewrite Nat.add_succ_r.
Qed.

Lemma length_mapi_from {A B : Type} (f : A -> nat -> B) (l : list A) :
  forall k, List.length (mapi_from f k l) = List.length l.
Proof. induction l as [|a l IH]; intros k; simpl; [reflexivity|now rewrite IH]. Qed.

Lemma length_renumber (l : list JsShot) :
  List.length (renumber l) = List.length l.
Proof. apply length_mapi_from. Qed.

Lemma nth_error_renumber (l : list JsShot) (i : nat) :
  nth_error (renumber l) i =
  option_map (fun s => setNumber s (Z.of_nat i + 1)) (nth_error l i).
Proof. unfold renumber, mapi. now rewrite nth_error_mapi_from. Qed.

(** Renumbering makes any sequence dense. *)
Lemma renumber_dense (l : list JsShot) : dense (renumber l).
Proof.
  unfold dense. rewrite length_renumber. unfold renumber, mapi.
  generalize 0. induction l as [|s l IH]; intros k; simpl; [reflexivity|].
  rewrite IH. f_equal. lia.
Qed.

Lemma skipn_nth_error {A : Type} (l : list A) :
  forall n x, nth_error l n = Some x -> skipn n l = x :: skipn (S n) l.
Proof.
  induction l as [|a l IH]; intros [|n] x H; simpl in *; try discriminate.
  - now inversion H.
  - now apply IH.
Qed.

(** Element [i] of the array after the two splices. *)
Lemma nth_error_moved {A : Type} (l : list A) (fromIndex toIndex : nat) (x : A) :
  fromIndex < List.length l -> toIndex < List.length l ->
  fromIndex <> toIndex ->
  nth_error l fromIndex = Some x ->
  forall i, i < List.length l ->
  nth_error (snd (splice (snd (splice l fromIndex 1 [])) toIndex 0 [x])) i =
  nth_error l (sourceIndex fromIndex toIndex i).
Proof.
  intros Hf Ht Hne Hx i Hi. unfold splice, sourceIndex. cbn [snd app].
  assert (Hlen : List.length (firstn fromIndex l) = fromIndex)
    by (rewrite length_firstn; lia).
  assert (Hrem : forall j,
            nth_error (firstn fromIndex l ++ skipn (fromIndex + 1) l) j =
            if Nat.ltb j fromIndex then nth_error l j else nth_error l (S j)).
  { intros j. rewrite nth_error_app, Hlen, nth_error_firstn, nth_error_skipn.
    destruct (Nat.ltb_spec j fromIndex); [reflexivity|]. f_equal. lia. }
  assert (Hlen' : List.length
                    (firstn toIndex
                       (firstn fromIndex l ++ skipn (fromIndex + 1) l)) = toIndex).
  { rewrite length_firstn, length_app, Hlen, length_skipn. lia. }
  rewrite nth_error_app, Hlen', nth_error_firstn, Hrem.
  destruct (Nat.eqb_spec i toIndex) as [->|Hit].
  - rewrite Nat.ltb_irrefl, Nat.sub_diag. simpl. now rewrite Hx.
  - destruct (Nat.ltb_spec i toIndex) as [Hlt|Hge].
    + destruct (Nat.ltb_spec fromIndex toIndex);
        destruct (Nat.ltb_spec i fromIndex); try reflexivity; try lia.
      now rewrite Nat.add_1_r.
    + destruct (i - toIndex) as [|d] eqn:Hd; [lia|]. cbn [nth_error].
      rewrite nth_error_skipn, Hrem.
      destruct (Nat.ltb_spec fromIndex toIndex);
        destruct (Nat.ltb_spec (toIndex + 0 + d) fromIndex);
        destruct (Nat.ltb_spec i fromIndex);
        destruct (Nat.leb_spec i fromIndex);
        try lia; f_equal; lia.
Qed.

(** The array [handleMoveShot] builds for valid and distinct indices:
    position [toIndex] holds the shot that was at [fromIndex], the other
    shots keep their order, and each shot is numbered by its position. *)
Lemma updatedShots_positions (shots : list JsShot) (fromIndex toIndex : nat) :
  fromIndex < List.length shots -> toIndex < List.length shots ->
  fromIndex <> toIndex ->
  exists l,
    updatedShots shots fromIndex toIndex = Some l /\
    List.length l = List.length shots /\
    dense l /\
    forall i, i < List.length shots ->
      exists s,
        nth_error shots (sourceIndex fromIndex toIndex i) = Some s /\
        nth_error l i = Some (setNumber s (Z.of_nat i + 1)).
Proof.
  intros Hf Ht Hne.
  destruct (nth_error shots fromIndex) as [x|] eqn:Hx;
    [|apply nth_error_None in Hx; lia].
  pose proof (@nth_error_moved _ shots fromIndex toIndex x Hf Ht Hne Hx)
    as Hmoved.
  unfold updatedShots.
  assert (Hfirst : splice shots fromIndex 1 [] =
                   ([x], firstn fromIndex shots ++ skipn (fromIndex + 1) shots)).
  { unfold splice. now rewrite (@skipn_nth_error _ shots fromIndex x Hx). }
  rewrite Hfirst in *. cbn [snd] in Hmoved.
  destruct (splice _ toIndex 0 [x]) as [removed newShots] eqn:Hsp.
  cbn [snd] in Hmoved.
  assert (Hlen : List.length newShots = List.length shots).
  { unfold splice in Hsp. inversion Hsp; subst newShots.
    repeat (rewrite ?length_app, ?length_firstn, ?length_skipn; cbn [List.length]).
    lia. }
  exists (renumber newShots).
  split; [reflexivity|]. split; [now rewrite length_renumber|].
  split; [apply renumber_dense|].
  intros i Hi. rewrite nth_error_renumber, (Hmoved i Hi).
  destruct (nth_error shots (sourceIndex fromIndex toIndex i)) as [s|] eqn:Hs.
  + now exists s.
  + exfalso. specialize (Hmoved i Hi). rewrite Hs in Hmoved.
    apply nth_error_None in Hmoved. lia.
Qed.

(** C7 (the code at the failing input).  After a reload that finds only a
    second project in storage, [activeProjectId] is p-1 again and names no
    project.  The render falls back to the first project and shows its
    shots A, B, C; [handleMoveShot] builds B, C, A numbered 1, 2, 3 from
    them, as it should, but stores the project under [activeProjectId],
    which matches nothing: the projects are unchanged and the shots shown
    are still A, B, C.  Such a state is what a session of the application
    followed by a reload gives.  Where [activeProjectId] names the project
    shown, the same move is stored and B, C, A numbered 1, 2, 3 is shown. *)
Theorem moved_shots_not_stored_after_reload :
  activeProject reloadedApp = hd_error (projects reloadedApp) /\
  map (@title float) (shotsOf reloadedApp) = ["A"; "B"; "C"] /\
  map (@number float) (shotsOf reloadedApp) = [1; 2; 3]%Z /\
  (exists l,
     updatedShots (shotsOf reloadedApp) 0 2 = Some l /\
     map (@title float) l = ["B"; "C"; "A"] /\
     map (@number float) l = [1; 2; 3]%Z) /\
  (exists st,
     handleMoveShot reloadedApp 0 2 = Some st /\
     projects st = projects reloadedApp /\
     map (@title float) (shotsOf st) = ["A"; "B"; "C"]) /\
  (exists session st,
     secondProjectSession = Ok session /\
     map p_id (projects session) = ["p-2"] /\
     map (@title float) (shotsOf (afterReload (projects session))) =
       ["A"; "B"; "C"] /\
     handleMoveShot (afterReload (projects session)) 0 2 = Some st /\
     projects st = projects session /\
     map (@title float) (shotsOf st) = ["A"; "B"; "C"]) /\
  (exists st,
     handleMoveShot appABC 0 2 = Some st /\
     map (@title float) (shotsOf st) = ["B"; "C"; "A"] /\
     map (@number float) (shotsOf st) = [1; 2; 3]%Z).
Proof.
  split; [reflexivity|]. split; [reflexivity|]. split; [reflexivity|].
  split; [|split; [|split]].
  - eexists. split; [vm_compute; reflexivity|]. split; reflexivity.
  - eexists. split; [vm_compute; reflexivity|]. split; reflexivity.
  - eexists. eexists. split; [vm_compute; reflexivity|].
    split; [reflexivity|]. split; [reflexivity|].
    split; [vm_compute; reflexivity|]. split; reflexivity.
  - eexists. split; [vm_compute; reflexivity|]. split; reflexivity.
Qed.

(** ** Numbering under the store operations *)

Lemma orElse_find_In {A : Type} (f : A -> bool) (l : list A) (x : A) :
  orElse (find f l) (hd_error l) = Some x -> In x l.
Proof.
  destruct (find f l) as [y|] eqn:Hfind; simpl; intros H.
  - inversion H; subst. now apply find_some in Hfind.
  - destruct l; simpl in H; [discriminate|]. inversion H. now left.
Qed.

Lemma activeProject_In (st : AppState) (p : Project) :
  activeProject st = Some p -> In p (projects st).
Proof. apply orElse_find_In. Qed.

Lemma activeStoryboard_In (p : Project) (sb : Storyboard) :
  activeStoryboard p = Some sb -> In sb (p_storyboards p).
Proof. apply orElse_find_In. Qed.

(** Storing a dense sequence in the active storyboard keeps every sequence
    of the store dense. *)
Lemma storeShots_allDense (st : AppState) (p : Project) (sb : Storyboard)
    (l : list JsShot) :
  allDense (projects st) -> In p (projects st) -> dense l ->
  allDense (storeShots st p sb l).
Proof.
  intros Hall Hp Hl q sq Hq Hsq. unfold storeShots in Hq.
  apply in_map_iff in Hq. destruct Hq as (x & Hx & Hin).
  destruct (String.eqb (p_id x) (activeProjectId st)).
  - subst q. simpl in Hsq. apply in_map_iff in Hsq.
    destruct Hsq as (y & Hy & Hiny).
    destruct (String.eqb (sb_id y) (sb_id sb)).
    + subst sq. exact Hl.
    + subst sq. exact (Hall p y Hp Hiny).
  - subst q. exact (Hall x sq Hin Hsq).
Qed.

Lemma dense_add (shots : list JsShot) (now : Z) :
  dense shots -> dense (shots ++ [newShot shots now]).
Proof.
  unfold dense. intros H.
  rewrite map_app, length_app, H. simpl.
  rewrite Nat.add_1_r, seq_S, map_app. simpl.
  do 2 f_equal. lia.
Qed.

Lemma number_merge (s : JsShot) (updates : PartialShot) :
  u_number updates = None -> number (merge s updates) = number s.
Proof. intros H. unfold merge. simpl. now rewrite H. Qed.

Lemma numbers_updated (shotId : string) (updates : PartialShot)
    (shots : list JsShot) :
  u_number updates = None ->
  map (@number float)
      (map (fun s => if String.eqb (id s) shotId then merge s updates else s)
           shots) =
  map (@number float) shots.
Proof.
  intros H. rewrite map_map. apply map_ext. intros s.
  destruct (String.eqb (id s) shotId); [now apply number_merge|reflexivity].
Qed.

Lemma updateShot_numbers (apid shotId : string) (updates : PartialShot)
    (ps : list Project) :
  u_number updates = None ->
  numbersOf (updateShot apid shotId updates ps) = numbersOf ps.
Proof.
  intros H. unfold numbersOf, updateShot. rewrite map_map.
  apply map_ext. intros p.
  destruct (String.eqb (p_id p) apid); [|reflexivity].
  simpl. rewrite map_map. apply map_ext. intros sb.
  destruct (String.eqb (sb_id sb) (p_activeStoryboardId p)); [|reflexivity].
  simpl. now apply numbers_updated.
Qed.

Lemma updateShot_allDense (apid shotId : string) (updates : PartialShot)
    (ps : list Project) :
  u_number updates = None ->
  allDense ps -> allDense (updateShot apid shotId updates ps).
Proof.
  intros H Hall q sq Hq Hsq. unfold updateShot in Hq.
  apply in_map_iff in Hq. destruct Hq as (p & Hp & Hin).
  destruct (String.eqb (p_id p) apid).
  - subst q. simpl in Hsq. apply in_map_iff in Hsq.
    destruct Hsq as (sb & Hsb & Hinsb).
    destruct (String.eqb (sb_id sb) (p_activeStoryboardId p)).
    + subst sq. unfold dense. simpl.
      rewrite (@numbers_updated shotId updates (sb_shots sb) H), length_map.
      exact (Hall p sb Hin Hinsb).
    + subst sq. exact (Hall p sb Hin Hinsb).
  - subst q. exact (Hall p sq Hin Hsq).
Qed.

(** C6 (as amended).  When every sequence of the store is numbered 1, 2,
    ..., its length, it is still so after [handleAddShot], after
    [deleteShot] and after [handleMoveShot]; the sequences [deleteShot] and
    [handleMoveShot] build are numbered so whatever the numbers were before.
    [updateShot] merges the patch into the shot: with a patch that carries no
    [number] it changes no number of the store and keeps every sequence
    numbered, and the patches the interface issues (duration, camera angle,
    title, and the two of image generation) carry none. *)
Theorem store_operations_keep_numbering (st : AppState) :
  allDense (projects st) ->
  (forall now, allDense (projects (handleAddShot st now))) /\
  (forall shotId, allDense (projects (deleteShot st shotId))) /\
  (forall shots shotId, dense (remainingShots shots shotId)) /\
  (forall fromIndex toIndex st',
     handleMoveShot st fromIndex toIndex = Some st' ->
     allDense (projects st')) /\
  (forall shots fromIndex toIndex l,
     updatedShots shots fromIndex toIndex = Some l -> dense l) /\
  (forall apid shotId updates,
     u_number updates = None ->
     numbersOf (updateShot apid shotId updates (projects st)) =
       numbersOf (projects st) /\
     allDense (updateShot apid shotId updates (projects st))) /\
  (forall d a t img prompt,
     u_number (durationUpdate d) = None /\
     u_number (cameraAngleUpdate a) = None /\
     u_number (titleUpdate t) = None /\
     u_number generatingUpdate = None /\
     u_number (generatedUpdate img prompt) = None).
Proof.
  intros Hall.
  assert (Hmove : forall shots fromIndex toIndex l,
            updatedShots shots fromIndex toIndex = Some l -> dense l).
  { intros shots fromIndex toIndex l. unfold updatedShots.
    destruct (splice shots fromIndex 1 []) as [removed newShots].
    destruct removed as [|movedShot removed]; [discriminate|].
    destruct (splice newShots toIndex 0 [movedShot]) as [ignored moved].
    intros H. inversion H. apply renumber_dense. }
  split; [|split; [|split; [|split; [|split; [|split]]]]].
  - intros now. unfold handleAddShot, withActive.
    destruct (activeProject st) as [p|] eqn:Hp; [|exact Hall].
    destruct (activeStoryboard p) as [sb|] eqn:Hsb; [|exact Hall].
    simpl. apply storeShots_allDense;
      [exact Hall|now apply activeProject_In|].
    apply dense_add.
    exact (Hall p sb (activeProject_In _ Hp) (activeStoryboard_In _ Hsb)).
  - intros shotId. unfold deleteShot, withActive.
    destruct (activeProject st) as [p|] eqn:Hp; [|exact Hall].
    destruct (activeStoryboard p) as [sb|] eqn:Hsb; [|exact Hall].
    simpl. apply storeShots_allDense;
      [exact Hall|now apply activeProject_In|apply renumber_dense].
  - intros shots shotId. apply renumber_dense.
  - intros fromIndex toIndex st'. unfold handleMoveShot.
    destruct (Nat.eqb fromIndex toIndex);
      [intros H; inversion H; subst; exact Hall|].
    destruct (activeProject st) as [p|] eqn:Hp;
      [|intros H; inversion H; subst; exact Hall].
    destruct (activeStoryboard p) as [sb|] eqn:Hsb;
      [|intros H; inversion H; subst; exact Hall].
    destruct (updatedShots (sb_shots sb) fromIndex toIndex) as [l|] eqn:Hl;
      [|discriminate].
    intros H. inversion H. simpl.
    apply storeShots_allDense;
      [exact Hall|now apply activeProject_In|exact (Hmove _ _ _ _ Hl)].
  - exact Hmove.
  - intros apid shotId updates Hnone. split.
    + now apply updateShot_numbers.
    + now apply updateShot_allDense.
  - intros d a t img prompt. repeat split.
Qed.

Lemma store_operations_keep_numbering_witness :
  allDense (projects initialApp) /\
  allDense (projects (handleAddShot initialApp 1000)) /\
  allDense (projects (deleteShot initialApp "2")) /\
  numbersOf (updateShot "p-1" "2" (titleUpdate "A door") (projects initialApp)) =
    numbersOf (projects initialApp).
Proof.
  assert (Hall : allDense (projects initialApp)).
  { intros p sb [<-|[]] [<-|[]]. reflexivity. }
  destruct (store_operations_keep_numbering initialApp Hall)
    as (Hadd & Hdel & _ & _ & _ & Hupd & _).
  split; [exact Hall|]. split; [exact (Hadd 1000%Z)|].
  split; [exact (Hdel "2")|].
  exact (proj1 (Hupd "p-1" "2" (titleUpdate "A door") eq_refl)).
Defined.

(** C6, as stated, fails for [updateShot]: a patch may carry [number], and
    merging [{ number: 7 }] into the first default shot changes its number
    and leaves the sequence numbered 7, 2, 3. *)
Lemma update_shot_can_change_number :
  let updates := mkPartial None (Some 7%Z) None None None None None None in
  let ps := updateShot "p-1" "1" updates (projects initialApp) in
  numbersOf (projects initialApp) = [[[1; 2; 3]]]%Z /\
  numbersOf ps = [[[7; 2; 3]]]%Z /\
  ~ allDense ps.
Proof.
  split; [reflexivity|]. split; [reflexivity|].
  intros Hall.
  specialize (Hall _ _ (or_introl eq_refl) (or_introl eq_refl)).
  vm_compute in Hall. discriminate.
Qed.

(** ** Projects and their active storyboard *)

(** With one clock reading for both storyboard ids, the new project owns
    its one storyboard and points at it. *)
Lemma new_project_same_reading (st : AppState) (now1 now : Z) :
  exists p,
    projects (handleNewProject st now1 now now) = projects st ++ [p] /\
    activeProject (handleNewProject st now1 now now) <> None /\
    List.length (p_storyboards p) = 1 /\
    activeOwned p.
Proof.
  eexists. split; [reflexivity|]. split.
  - unfold activeProject. simpl.
    destruct (find _ _); simpl; [discriminate|].
    destruct (projects st); discriminate.
  - split; [reflexivity|]. split; [discriminate|]. simpl. now left.
Qed.

(** Deleting the only storyboard of the active project changes no project. *)
Lemma delete_only_storyboard_is_noop (st : AppState) (p : Project)
    (sb : Storyboard) (name : string) (c : ascii) (rest : string) :
  activeProject st = Some p ->
  p_storyboards p = [sb] ->
  sb_id sb = String c rest ->
  deleteConfirmation st =
    mkConfirmation true (Some DeleteStoryboard) (Some (sb_id sb)) name ->
  executeDelete st = Ok (setDeleteConfirmation st closedConfirmation).
Proof.
  intros Hp Hsbs Hid Hdc. unfold executeDelete. rewrite Hdc. simpl.
  rewrite Hid. simpl. rewrite <- Hid.
  unfold withActive. rewrite Hp.
  unfold activeStoryboard. rewrite Hsbs. simpl.
  rewrite String.eqb_refl. simpl.
  now destruct (String.eqb (sb_id sb) (p_activeStoryboardId p)).
Qed.

(** [executeDelete] keeps every project with a storyboard and with an active
    storyboard it owns; when the active storyboard is the one deleted, the
    pointer moves to the first remaining one. *)
Lemma executeDelete_keeps_active_owned (st st' : AppState) :
  (forall p, In p (projects st) -> activeOwned p) ->
  executeDelete st = Ok st' ->
  forall p, In p (projects st') -> activeOwned p.
Proof.
  intros Hall. unfold executeDelete.
  destruct (dc_type (deleteConfirmation st)) as [[|]|];
    destruct (truthyId (dc_id (deleteConfirmation st))) as [i|];
    try (intros H; inversion H; subst; exact Hall).
  - destruct (String.eqb (activeProjectId st) i).
    + destruct (filter _ (projects st)) as [|first rest] eqn:Hrem;
        [discriminate|].
      intros H; inversion H; subst; clear H. intros p Hin.
      change (In p (first :: rest)) in Hin.
      rewrite <- Hrem in Hin. apply filter_In in Hin. now apply Hall.
    + intros H; inversion H; subst; clear H. intros p Hin.
      change (In p (filter (fun p => negb (String.eqb (p_id p) i)) (projects st)))
        in Hin.
      apply filter_In in Hin. now apply Hall.
  - intros H; inversion H; subst; clear H. simpl.
    unfold withActive.
    destruct (activeProject st) as [q|] eqn:Hq; [|exact Hall].
    destruct (activeStoryboard q) as [sb|]; [|exact Hall].
    destruct (filter _ (p_storyboards q)) as [|first rest] eqn:Hrem;
      [exact Hall|].
    simpl. intros p Hin. apply in_map_iff in Hin.
    destruct Hin as (x & Hx & Hinx).
    destruct (String.eqb (p_id x) (activeProjectId st));
      [|subst p; now apply Hall].
    subst p. split; [discriminate|]. simpl.
    destruct (String.eqb (p_activeStoryboardId q) i) eqn:Hact; [now left|].
    destruct (Hall q (activeProject_In _ Hq)) as [_ Hown].
    apply in_map_iff in Hown. destruct Hown as (sb0 & Hid0 & Hin0).
    change (In (p_activeStoryboardId q) (map sb_id (first :: rest))).
    rewrite <- Hrem. apply in_map_iff. exists sb0. split; [exact Hid0|].
    apply filter_In. split; [exact Hin0|]. now rewrite Hid0, Hact.
Qed.

(** C8 (the code at the failing input).  [handleNewProject] reads the clock
    once for the storyboard id and once more for [activeStoryboardId].  When
    the millisecond changes between the two readings (1000, then 1001), the
    new project owns the storyboard sb-1000 and points at sb-1001, which it
    does not own.  The render falls back to the first storyboard, so a shot
    can be added to it; but [updateShot] looks the storyboard up by
    [activeStoryboardId] alone, and an edit of that shot changes nothing. *)
Theorem new_project_active_storyboard_dangles :
  let st := handleNewProject initialApp 1000 1000 1001 in
  let st1 := handleAddShot st 1002 in
  (exists p,
     activeProject st = Some p /\
     map sb_id (p_storyboards p) = ["sb-1000"] /\
     p_activeStoryboardId p = "sb-1001" /\
     activeOwnedb p = false /\
     ~ activeOwned p) /\
  map (@id float) (shotsOf st1) = ["shot-1002"] /\
  updateShot (activeProjectId st1) "shot-1002" (titleUpdate "A door")
             (projects st1) = projects st1.
Proof.
  split; [|split; vm_compute; reflexivity].
  eexists. split; [vm_compute; reflexivity|].
  split; [reflexivity|]. split; [reflexivity|]. split; [reflexivity|].
  intros [_ Hin]. simpl in Hin. destruct Hin as [Heq|[]]. discriminate.
Qed.

(** ** Image generation *)



(** With nothing happening during the [await], the flow is
    [forceRegenerate]. *)
Lemma forceRegenerate_undisturbed (trim : string -> string)
    (generateContent : string -> string -> ApiOutcome)
    (st : AppState) (shotId : string) :
  forceRegenerateDuring trim generateContent (fun pending => pending) st shotId =
  forceRegenerate trim generateContent st shotId.
Proof.
  unfold forceRegenerateDuring, forceRegenerate.
  now destruct (beginRegenerate trim st shotId).
Qed.





(** * Further properties of the store *)

(** ** Reading back what a shot handler stored *)

Lemma find_replace {A : Type} (f : A -> bool) (up : A) (l : list A) (x : A) :
  find f l = Some x -> f up = true ->
  find f (map (fun y => if f y then up else y) l) = Some up.
Proof.
  intros Hfind Hup. induction l as [|a l IH]; simpl in *; [discriminate|].
  destruct (f a) eqn:Ha.
  - simpl. now rewrite Hup.
  - simpl. rewrite Ha. now apply IH.
Qed.

Lemma find_replace_none {A : Type} (f g : A -> bool) (up : A) (l : list A) :
  find f l = None -> f up = false ->
  find f (map (fun y => if g y then up else y) l) = None.
Proof.
  intros Hfind Hup. induction l as [|a l IH]; simpl in *; [reflexivity|].
  destruct (f a) eqn:Ha; [discriminate|].
  destruct (g a); simpl; [rewrite Hup|rewrite Ha]; now apply IH.
Qed.

(** A project found by [activeProjectId] is the one [find] returns. *)
Lemma activeProject_found (st : AppState) (p : Project) :
  activeProject st = Some p -> p_id p = activeProjectId st ->
  find (fun x => String.eqb (p_id x) (activeProjectId st)) (projects st) = Some p.
Proof.
  unfold activeProject. intros H Hid.
  destruct (find _ (projects st)) as [q|] eqn:Hfind; simpl in H; [exact H|].
  pose proof (find_none _ _ Hfind p) as Hnone.
  destruct (projects st) as [|a l]; simpl in H; [discriminate|].
  inversion H; subst a. specialize (Hnone (or_introl eq_refl)).
  simpl in Hnone. rewrite Hid, String.eqb_refl in Hnone. discriminate.
Qed.

(** When no project carries [activeProjectId], the render shows the first
    project and [find] returns nothing. *)
Lemma activeProject_fallback (st : AppState) :
  (forall q, In q (projects st) -> p_id q <> activeProjectId st) ->
  find (fun x => String.eqb (p_id x) (activeProjectId st)) (projects st) = None /\
  activeProject st = hd_error (projects st).
Proof.
  intros Hno.
  assert (Hfind : find (fun x => String.eqb (p_id x) (activeProjectId st))
                       (projects st) = None).
  { destruct (find _ (projects st)) as [q|] eqn:Hfind; [|reflexivity].
    apply find_some in Hfind. destruct Hfind as [Hin Heq].
    apply String.eqb_eq in Heq. now elim (Hno q Hin). }
  split; [exact Hfind|]. unfold activeProject. now rewrite Hfind.
Qed.

(** The map over the projects changes nothing when no id matches. *)
Lemma replace_unknown_project (st : AppState) (up : Project) :
  (forall q, In q (projects st) -> p_id q <> activeProjectId st) ->
  map (fun x => if String.eqb (p_id x) (activeProjectId st) then up else x)
      (projects st) = projects st.
Proof.
  intros Hno. rewrite <- (map_id (projects st)) at 2.
  apply map_ext_in. intros q Hin.
  destruct (String.eqb_spec (p_id q) (activeProjectId st)) as [Heq|]; [|reflexivity].
  now elim (Hno q Hin).
Qed.

(** After the shots [l] are stored, a render over the new projects finds the
    updated project and storyboard, and [l] as the active shots. *)
Lemma stored_shots_read_back (st st' : AppState) (p : Project)
    (sb : Storyboard) (l : list JsShot) :
  activeProject st = Some p -> p_id p = activeProjectId st ->
  activeStoryboard p = Some sb ->
  projects st' = storeShots st p sb l ->
  activeProjectId st' = activeProjectId st ->
  exists p' sb',
    activeProject st' = Some p' /\ p_id p' = activeProjectId st' /\
    activeStoryboard p' = Some sb' /\ sb_shots sb' = l /\ shotsOf st' = l.
Proof.
  intros Hp Hid Hsb Hps Hap.
  set (usb := setShots sb l).
  set (G := fun x => if String.eqb (sb_id x) (sb_id sb) then usb else x).
  set (up := setStoryboards p (map G (p_storyboards p))).
  assert (Hact : activeProject st' = Some up).
  { unfold activeProject. rewrite Hps, Hap. unfold storeShots. fold usb G up.
    rewrite (find_replace (fun x => String.eqb (p_id x) (activeProjectId st))
               up (projects st) (activeProject_found _ Hp Hid)); [reflexivity|].
    simpl. now rewrite Hid, String.eqb_refl. }
  assert (Hasb : activeStoryboard up = Some usb).
  { unfold activeStoryboard in *. simpl.
    destruct (find _ (p_storyboards p)) as [sb0|] eqn:Hfind; simpl in Hsb.
    - inversion Hsb; subst sb0.
      pose proof (find_some _ _ Hfind) as [_ Heq]. apply String.eqb_eq in Heq.
      assert (HG : map G (p_storyboards p) =
                   map (fun y => if String.eqb (sb_id y) (p_activeStoryboardId p)
                                 then usb else y) (p_storyboards p)).
      { apply map_ext. intros y. unfold G. now rewrite Heq. }
      rewrite HG.
      rewrite (find_replace
                 (fun y => String.eqb (sb_id y) (p_activeStoryboardId p))
                 usb (p_storyboards p) Hfind); [reflexivity|].
      simpl. now rewrite Heq, String.eqb_refl.
    - destruct (p_storyboards p) as [|a rest] eqn:Hsbs; simpl in Hsb;
        [discriminate|]. inversion Hsb; subst a.
      pose proof (find_none _ _ Hfind sb (or_introl eq_refl)) as Hnone.
      simpl in Hnone.
      assert (Hrep : find (fun y => String.eqb (sb_id y) (p_activeStoryboardId p))
                          (map G (sb :: rest)) = None)
        by (apply find_replace_none; assumption).
      rewrite Hrep.
      simpl. unfold G. now rewrite String.eqb_refl. }
  exists up, usb. split; [exact Hact|]. split; [simpl; congruence|].
  split; [exact Hasb|]. split; [reflexivity|].
  unfold shotsOf. now rewrite Hact, Hasb.
Qed.

Lemma setNumber_same (s : JsShot) : setNumber s (number s) = s.
Proof. now destruct s. Qed.

(** Renumbering leaves a densely numbered sequence as it is. *)
Lemma renumber_of_dense (l : list JsShot) : dense l -> renumber l = l.
Proof.
  intros Hd. apply nth_error_ext. intros k. rewrite nth_error_renumber.
  destruct (nth_error l k) as [s|] eqn:Hs; [|reflexivity]. simpl.
  assert (Hk : k < List.length l) by (apply nth_error_Some; congruence).
  assert (Hn : nth_error (map (@number float) l) k = Some (number s))
    by (now rewrite nth_error_map, Hs).
  rewrite Hd, nth_error_map, nth_error_seq in Hn.
  destruct (Nat.ltb_spec k (List.length l)) as [_|]; [|lia].
  simpl in Hn. inversion Hn as [Hnum].
  replace (Z.of_nat k + 1)%Z with (number s) by lia.
  now rewrite setNumber_same.
Qed.

Lemma map_id_renumber (l : list JsShot) :
  map (@id float) (renumber l) = map (@id float) l.
Proof.
  apply nth_error_ext. intros k.
  rewrite !nth_error_map, nth_error_renumber.
  now destruct (nth_error l k).
Qed.

Lemma filter_fresh (l : list JsShot) (i : string) :
  ~ In i (map (@id float) l) ->
  filter (fun s => negb (String.eqb (id s) i)) l = l.
Proof.
  induction l as [|s l IH]; intros Hfresh; simpl in *; [reflexivity|].
  destruct (String.eqb_spec (id s) i) as [Heq|Hne]; simpl.
  - elim Hfresh. now left.
  - f_equal. apply IH. intros Hin. apply Hfresh. now right.
Qed.

Lemma map_id_filter (l : list JsShot) (i : string) :
  map (@id float) (filter (fun s => negb (String.eqb (id s) i)) l) =
  filter (fun j => negb (String.eqb j i)) (map (@id float) l).
Proof.
  induction l as [|s l IH]; simpl; [reflexivity|].
  destruct (String.eqb (id s) i); simpl; now rewrite IH.
Qed.

Lemma handleAddShot_read_back (st : AppState) (now : Z) (p : Project)
    (sb : Storyboard) :
  activeProject st = Some p -> p_id p = activeProjectId st ->
  activeStoryboard p = Some sb ->
  exists p1 sb1,
    activeProject (handleAddShot st now) = Some p1 /\
    p_id p1 = activeProjectId (handleAddShot st now) /\
    activeStoryboard p1 = Some sb1 /\
    shotsOf (handleAddShot st now) = shotsOf st ++ [newShot (shotsOf st) now].
Proof.
  intros Hp Hid Hsb.
  assert (Hshots : shotsOf st = sb_shots sb)
    by (unfold shotsOf; now rewrite Hp, Hsb).
  rewrite Hshots. unfold handleAddShot, withActive. rewrite Hp, Hsb.
  edestruct (@stored_shots_read_back st
               (mkApp (storeShots st p sb (sb_shots sb ++ [newShot (sb_shots sb) now]))
                      (activeProjectId st) (isPlayerOpen st)
                      (Some (id (newShot (sb_shots sb) now)))
                      (deleteConfirmation st))
               p sb _ Hp Hid Hsb eq_refl eq_refl)
    as (p1 & sb1 & Ha & Hb & Hc & _ & Hd).
  now exists p1, sb1.
Qed.

Lemma deleteShot_read_back (st : AppState) (shotId : string) (p : Project)
    (sb : Storyboard) :
  activeProject st = Some p -> p_id p = activeProjectId st ->
  activeStoryboard p = Some sb ->
  shotsOf (deleteShot st shotId) = remainingShots (shotsOf st) shotId.
Proof.
  intros Hp Hid Hsb.
  assert (Hshots : shotsOf st = sb_shots sb)
    by (unfold shotsOf; now rewrite Hp, Hsb).
  rewrite Hshots. unfold deleteShot, withActive. rewrite Hp, Hsb.
  edestruct (@stored_shots_read_back st
               (setProjects st
                  (storeShots st p sb (remainingShots (sb_shots sb) shotId)))
               p sb _ Hp Hid Hsb eq_refl eq_refl)
    as (p' & sb' & _ & _ & _ & _ & Hr).
  exact Hr.
Qed.

(** X1.  When [activeProjectId] names the project the render shows,
    [handleAddShot] leaves the active sequence followed by one new shot,
    numbered one more than the former length, of duration 2.0, with an empty
    title and the id built from the clock, and selects that shot. *)
Theorem add_shot_appends_and_selects (st : AppState) (now : Z) (p : Project)
    (sb : Storyboard) :
  activeProject st = Some p -> p_id p = activeProjectId st ->
  activeStoryboard p = Some sb ->
  let added := newShot (shotsOf st) now in
  shotsOf (handleAddShot st now) = shotsOf st ++ [added] /\
  number added = (Z.of_nat (List.length (shotsOf st)) + 1)%Z /\
  selectedShotId (handleAddShot st now) = Some (id added) /\
  activeProjectId (handleAddShot st now) = activeProjectId st.
Proof.
  intros Hp Hid Hsb added.
  destruct (@handleAddShot_read_back st now p sb Hp Hid Hsb)
    as (p1 & sb1 & _ & _ & _ & Hread).
  split; [exact Hread|].
  unfold added, handleAddShot, withActive, shotsOf. rewrite Hp, Hsb.
  repeat split.
Qed.

Lemma add_shot_appends_and_selects_witness :
  shotsOf (handleAddShot initialApp 1700) =
    shotsOf initialApp ++ [newShot (shotsOf initialApp) 1700] /\
  selectedShotId (handleAddShot initialApp 1700) = Some "shot-1700".
Proof.
  destruct (@add_shot_appends_and_selects initialApp 1700 _ _
              eq_refl eq_refl eq_refl) as (Happ & _ & Hsel & _).
  split; [exact Happ|exact Hsel].
Defined.

(** X2.  [deleteShot] removes every shot that carries the id and nothing
    else: the ids that remain are the other ids in their order, each
    remaining shot is a former shot with another id, renumbered to its new
    position plus one, and the active sequence read back after the handler is
    that list.  Deleting an id that no shot carries leaves a densely numbered
    sequence exactly as it was. *)
Theorem delete_shot_removes_by_id (st : AppState) (shotId : string)
    (p : Project) (sb : Storyboard) :
  activeProject st = Some p -> p_id p = activeProjectId st ->
  activeStoryboard p = Some sb ->
  shotsOf (deleteShot st shotId) = remainingShots (shotsOf st) shotId /\
  map (@id float) (shotsOf (deleteShot st shotId)) =
    filter (fun i => negb (String.eqb i shotId)) (map (@id float) (shotsOf st)) /\
  (forall k s',
     nth_error (shotsOf (deleteShot st shotId)) k = Some s' ->
     exists s, In s (shotsOf st) /\ id s <> shotId /\
               s' = setNumber s (Z.of_nat k + 1)) /\
  (~ In shotId (map (@id float) (shotsOf st)) -> dense (shotsOf st) ->
   shotsOf (deleteShot st shotId) = shotsOf st).
Proof.
  intros Hp Hid Hsb.
  assert (Hshots : shotsOf st = sb_shots sb)
    by (unfold shotsOf; now rewrite Hp, Hsb).
  pose proof (@deleteShot_read_back st shotId p sb Hp Hid Hsb) as Hread.
  rewrite Hread. unfold remainingShots.
  split; [reflexivity|]. split; [|split].
  - rewrite map_id_renumber. apply map_id_filter.
  - intros k s' Hk. rewrite nth_error_renumber in Hk.
    destruct (nth_error (filter _ (shotsOf st)) k) as [s|] eqn:Hs;
      [|discriminate].
    simpl in Hk. inversion Hk. exists s.
    apply nth_error_In, filter_In in Hs. destruct Hs as [Hin Hne].
    split; [exact Hin|]. split; [|reflexivity].
    apply negb_true_iff in Hne. now apply String.eqb_neq.
  - intros Hfresh Hdense. rewrite (filter_fresh _ _ Hfresh).
    now apply renumber_of_dense.
Qed.

Lemma delete_shot_removes_by_id_witness :
  map (@id float) (shotsOf (deleteShot initialApp "2")) = ["1"; "3"] /\
  shotsOf (deleteShot initialApp "9") = shotsOf initialApp.
Proof.
  destruct (@delete_shot_removes_by_id initialApp "2" _ _
              eq_refl eq_refl eq_refl) as (_ & Hids & _).
  split; [exact Hids|].
  destruct (@delete_shot_removes_by_id initialApp "9" _ _
              eq_refl eq_refl eq_refl) as (_ & _ & _ & Hsame).
  apply Hsame; [|reflexivity].
  simpl. intros [H|[H|[H|[]]]]; discriminate.
Defined.

(** X3.  Adding a shot and then deleting it gives back the active sequence,
    provided the sequence was densely numbered and no shot already carried
    the id built from the clock. *)
Theorem add_then_delete_restores (st : AppState) (now : Z) (p : Project)
    (sb : Storyboard) :
  activeProject st = Some p -> p_id p = activeProjectId st ->
  activeStoryboard p = Some sb ->
  dense (shotsOf st) ->
  ~ In (id (newShot (shotsOf st) now)) (map (@id float) (shotsOf st)) ->
  shotsOf (deleteShot (handleAddShot st now) (id (newShot (shotsOf st) now))) =
    shotsOf st.
Proof.
  intros Hp Hid Hsb Hdense Hfresh.
  assert (Hshots : shotsOf st = sb_shots sb)
    by (unfold shotsOf; now rewrite Hp, Hsb).
  destruct (@handleAddShot_read_back st now p sb Hp Hid Hsb)
    as (p1 & sb1 & Hp1 & Hid1 & Hsb1 & Hs1).
  rewrite (@deleteShot_read_back _ _ p1 sb1 Hp1 Hid1 Hsb1), Hs1. unfold remainingShots.
  rewrite filter_app, (filter_fresh _ _ Hfresh). simpl.
  rewrite String.eqb_refl. simpl. rewrite app_nil_r.
  now apply renumber_of_dense.
Qed.

Lemma add_then_delete_restores_witness :
  shotsOf (deleteShot (handleAddShot initialApp 1700) "shot-1700") =
    shotsOf initialApp.
Proof.
  apply (@add_then_delete_restores initialApp 1700 _ _ eq_refl eq_refl eq_refl).
  - reflexivity.
  - simpl. intros [H|[H|[H|[]]]]; discriminate.
Defined.

(** X4.  The handlers write through [activeProjectId] alone, while the
    render falls back to the first project.  When no project carries
    [activeProjectId], the render still shows the first project and its
    shots, but adding, deleting, moving and updating a shot, adding a
    storyboard and selecting one all leave the projects exactly as they
    were. *)
Theorem handlers_write_nothing_without_active_project (st : AppState) :
  (forall q, In q (projects st) -> p_id q <> activeProjectId st) ->
  activeProject st = hd_error (projects st) /\
  (forall now, projects (handleAddShot st now) = projects st) /\
  (forall shotId, projects (deleteShot st shotId) = projects st) /\
  (forall fromIndex toIndex st',
     handleMoveShot st fromIndex toIndex = Some st' ->
     projects st' = projects st) /\
  (forall shotId updates,
     updateShot (activeProjectId st) shotId updates (projects st) = projects st) /\
  (forall now, projects (createStoryboard st now) = projects st) /\
  (forall sbid, projects (selectStoryboard st sbid) = projects st).
Proof.
  intros Hno.
  assert (Hstore : forall p sb l, storeShots st p sb l = projects st)
    by (intros p sb l; unfold storeShots; now apply replace_unknown_project).
  split; [apply (activeProject_fallback _ Hno)|].
  split; [|split; [|split; [|split; [|split]]]].
  - intros now. unfold handleAddShot, withActive.
    destruct (activeProject st) as [p|]; [|reflexivity].
    destruct (activeStoryboard p) as [sb|]; [|reflexivity]. apply Hstore.
  - intros shotId. unfold deleteShot, withActive.
    destruct (activeProject st) as [p|]; [|reflexivity].
    destruct (activeStoryboard p) as [sb|]; [|reflexivity]. apply Hstore.
  - intros fromIndex toIndex st'. unfold handleMoveShot.
    destruct (Nat.eqb fromIndex toIndex); [intros H; now inversion H|].
    destruct (activeProject st) as [p|]; [|intros H; now inversion H].
    destruct (activeStoryboard p) as [sb|]; [|intros H; now inversion H].
    destruct (updatedShots _ _ _) as [l|]; [|discriminate].
    intros H; inversion H. apply Hstore.
  - intros shotId updates. unfold updateShot.
    rewrite <- (map_id (projects st)) at 2.
    apply map_ext_in. intros q Hin.
    destruct (String.eqb_spec (p_id q) (activeProjectId st)) as [Heq|];
      [|reflexivity].
    now elim (Hno q Hin).
  - intros now. unfold createStoryboard, withActive.
    destruct (activeProject st) as [p|]; [|reflexivity].
    destruct (activeStoryboard p) as [sb|]; [|reflexivity].
    simpl. now apply replace_unknown_project.
  - intros sbid. unfold selectStoryboard, withActive.
    destruct (activeProject st) as [p|]; [|reflexivity].
    destruct (activeStoryboard p) as [sb|]; [|reflexivity].
    simpl. now apply replace_unknown_project.
Qed.

Lemma handlers_write_nothing_without_active_project_witness :
  map (@title float) (shotsOf reloadedApp) = ["A"; "B"; "C"] /\
  projects (handleAddShot reloadedApp 1700) = projects reloadedApp /\
  projects (deleteShot reloadedApp "A") = projects reloadedApp /\
  updateShot (activeProjectId reloadedApp) "A" (titleUpdate "A door")
             (projects reloadedApp) = projects reloadedApp.
Proof.
  assert (Hno : forall q, In q (projects reloadedApp) ->
                          p_id q <> activeProjectId reloadedApp).
  { intros q [<-|[]]. discriminate. }
  destruct (handlers_write_nothing_without_active_project reloadedApp Hno)
    as (_ & Hadd & Hdel & _ & Hupd & _).
  split; [reflexivity|]. split; [apply Hadd|]. split; [apply Hdel|apply Hupd].
Defined.

(** ** Moving shots *)

(** What [updatedShots] builds for valid and distinct indices. *)
Lemma updatedShots_spec (shots : list JsShot) (fromIndex toIndex : nat) :
  fromIndex < List.length shots -> toIndex < List.length shots ->
  fromIndex <> toIndex ->
  exists x l',
    nth_error shots fromIndex = Some x /\
    l' = firstn fromIndex shots ++ skipn (fromIndex + 1) shots /\
    updatedShots shots fromIndex toIndex =
      Some (renumber (firstn toIndex l' ++ [x] ++ skipn (toIndex + 0) l')) /\
    forall i, i < List.length shots ->
      nth_error (firstn toIndex l' ++ [x] ++ skipn (toIndex + 0) l') i =
      nth_error shots (sourceIndex fromIndex toIndex i).
Proof.
  intros Hf Ht Hne.
  destruct (nth_error shots fromIndex) as [x|] eqn:Hx;
    [|apply nth_error_None in Hx; lia].
  exists x, (firstn fromIndex shots ++ skipn (fromIndex + 1) shots).
  split; [reflexivity|]. split; [reflexivity|]. split.
  - unfold updatedShots, splice.
    now rewrite (@skipn_nth_error _ shots fromIndex x Hx).
  - exact (@nth_error_moved _ shots fromIndex toIndex x Hf Ht Hne Hx).
Qed.

Lemma sourceIndex_inverse (a b i : nat) :
  a <> b -> sourceIndex a b (sourceIndex b a i) = i.
Proof.
  intros Hne. remember (sourceIndex b a i) as j eqn:Hj.
  unfold sourceIndex in *.
  repeat match goal with
         | H : context [Nat.eqb ?x ?y] |- _ => destruct (Nat.eqb_spec x y)
         | H : context [Nat.ltb ?x ?y] |- _ => destruct (Nat.ltb_spec x y)
         | H : context [Nat.leb ?x ?y] |- _ => destruct (Nat.leb_spec x y)
         end;
  repeat match goal with
         | |- context [Nat.eqb ?x ?y] => destruct (Nat.eqb_spec x y)
         | |- context [Nat.ltb ?x ?y] => destruct (Nat.ltb_spec x y)
         | |- context [Nat.leb ?x ?y] => destruct (Nat.leb_spec x y)
         end; lia.
Qed.

Lemma sourceIndex_bound (a b i n : nat) :
  a < n -> b < n -> i < n -> sourceIndex a b i < n.
Proof.
  intros Ha Hb Hi. unfold sourceIndex.
  repeat match goal with
         | |- context [Nat.eqb ?x ?y] => destruct (Nat.eqb_spec x y)
         | |- context [Nat.ltb ?x ?y] => destruct (Nat.ltb_spec x y)
         | |- context [Nat.leb ?x ?y] => destruct (Nat.leb_spec x y)
         end; lia.
Qed.

Lemma moved_length {A : Type} (l : list A) (a b : nat) (x : A) :
  a < List.length l -> b < List.length l ->
  List.length (firstn b (firstn a l ++ skipn (a + 1) l) ++ [x] ++
               skipn (b + 0) (firstn a l ++ skipn (a + 1) l)) = List.length l.
Proof.
  intros Ha Hb.
  repeat (rewrite ?length_app, ?length_firstn, ?length_skipn; cbn [List.length]).
  lia.
Qed.

(** X5.  Moving a shot from one valid position to another and then back
    gives the sequence in its original order, renumbered from 1: on a densely
    numbered sequence the two moves cancel exactly. *)
Theorem move_there_and_back (shots l : list JsShot) (fromIndex toIndex : nat) :
  fromIndex < List.length shots -> toIndex < List.length shots ->
  fromIndex <> toIndex ->
  updatedShots shots fromIndex toIndex = Some l ->
  updatedShots l toIndex fromIndex = Some (renumber shots) /\
  (dense shots -> updatedShots l toIndex fromIndex = Some shots).
Proof.
  intros Hf Ht Hne Hl.
  destruct (updatedShots_spec shots Hf Ht Hne) as (x & l1 & Hx & Hl1 & Hup & Hnth).
  rewrite Hup in Hl. inversion Hl as [Hl']. clear Hl.
  assert (Hlen1 : List.length (firstn toIndex l1 ++ [x] ++ skipn (toIndex + 0) l1)
                  = List.length shots)
    by (subst l1; now apply moved_length).
  assert (Hlen : List.length l = List.length shots)
    by (rewrite <- Hl', length_renumber; exact Hlen1).
  assert (Hf' : fromIndex < List.length l) by lia.
  assert (Ht' : toIndex < List.length l) by lia.
  assert (Hne' : toIndex <> fromIndex) by lia.
  destruct (updatedShots_spec l Ht' Hf' Hne') as (y & l2 & Hy & Hl2 & Hup2 & Hnth2).
  assert (Hback : updatedShots l toIndex fromIndex = Some (renumber shots)).
  { rewrite Hup2. f_equal. apply nth_error_ext. intros i.
    rewrite !nth_error_renumber.
    destruct (Nat.lt_ge_cases i (List.length shots)) as [Hi|Hi].
    - rewrite (Hnth2 i ltac:(lia)), <- Hl', nth_error_renumber.
      pose proof (Hnth _ (sourceIndex_bound Ht Hf Hi)) as Hn.
      cbn [app] in Hn. rewrite Hn.
      rewrite (sourceIndex_inverse _ Hne).
      destruct (nth_error shots i) as [s|]; [|reflexivity].
      now destruct s.
    - assert (Hnone : nth_error shots i = None) by (now apply nth_error_None).
      rewrite Hnone.
      assert (Hnone2 : nth_error (firstn fromIndex l2 ++ [y] ++
                                  skipn (fromIndex + 0) l2) i = None).
      { apply nth_error_None. subst l2. rewrite moved_length; lia. }
      now rewrite Hnone2. }
  rewrite Hl'. split; [exact Hback|].
  intros Hdense. now rewrite Hback, (renumber_of_dense Hdense).
Qed.

Lemma move_there_and_back_witness :
  exists l,
    updatedShots shotsABC 0 2 = Some l /\
    map (@title float) l = ["B"; "C"; "A"] /\
    updatedShots l 2 0 = Some shotsABC.
Proof.
  exists (renumber [plainShot "B" 2 2.0%float; plainShot "C" 3 4.5%float;
                    plainShot "A" 1 3.5%float]).
  split; [reflexivity|]. split; [reflexivity|].
  apply (@move_there_and_back shotsABC _ 0 2); try reflexivity.
  - simpl; lia.
  - simpl; lia.
  - lia.
Defined.

Lemma handleMoveShot_read_back (st : AppState) (p : Project) (sb : Storyboard)
    (fromIndex toIndex : nat) (l : list JsShot) :
  activeProject st = Some p -> p_id p = activeProjectId st ->
  activeStoryboard p = Some sb ->
  fromIndex <> toIndex ->
  updatedShots (sb_shots sb) fromIndex toIndex = Some l ->
  exists st', handleMoveShot st fromIndex toIndex = Some st' /\ shotsOf st' = l.
Proof.
  intros Hp Hid Hsb Hne Hl. unfold handleMoveShot.
  apply Nat.eqb_neq in Hne. rewrite Hne, Hp, Hsb, Hl.
  eexists. split; [reflexivity|].
  edestruct (@stored_shots_read_back st
               (setProjects st (storeShots st p sb l))
               p sb _ Hp Hid Hsb eq_refl eq_refl)
    as (p' & sb' & _ & _ & _ & _ & Hr).
  exact Hr.
Qed.

(** X6.  A drag from one rendered row dropped on another always reorders:
    for two positions of the active sequence [handleMoveShot] yields a state
    (the case of an undefined moved shot cannot arise), and the sequence read
    back afterwards has the same length and the same ids, each as often as
    before: no shot is lost or duplicated. *)
Theorem drop_on_row_permutes_shots (st : AppState) (p : Project)
    (sb : Storyboard) (fromIndex toIndex : nat) :
  activeProject st = Some p -> p_id p = activeProjectId st ->
  activeStoryboard p = Some sb ->
  fromIndex < List.length (shotsOf st) -> toIndex < List.length (shotsOf st) ->
  exists st',
    handleMoveShot st fromIndex toIndex = Some st' /\
    List.length (shotsOf st') = List.length (shotsOf st) /\
    Permutation (map (@id float) (shotsOf st')) (map (@id float) (shotsOf st)) /\
    Permutation (map (@title float) (shotsOf st'))
                (map (@title float) (shotsOf st)).
Proof.
  intros Hp Hid Hsb Hf Ht.
  assert (Hshots : shotsOf st = sb_shots sb)
    by (unfold shotsOf; now rewrite Hp, Hsb).
  destruct (Nat.eq_dec fromIndex toIndex) as [Heq|Hne].
  - exists st. unfold handleMoveShot. apply Nat.eqb_eq in Heq. rewrite Heq.
    repeat split; reflexivity.
  - rewrite Hshots in *.
    destruct (updatedShots_spec (sb_shots sb) Hf Ht Hne)
      as (x & l1 & Hx & Hl1 & Hup & _).
    destruct (@handleMoveShot_read_back st p sb fromIndex toIndex _
                Hp Hid Hsb Hne Hup) as (st' & Hmove & Hread).
    exists st'. split; [exact Hmove|]. rewrite Hread.
    assert (Hperm : Permutation (firstn toIndex l1 ++ [x] ++ skipn (toIndex + 0) l1)
                                (sb_shots sb)).
    { rewrite Nat.add_0_r. cbn [app].
      apply Permutation_trans with (x :: l1).
      - apply Permutation_sym, Permutation_cons_app.
        now rewrite firstn_skipn.
      - subst l1. rewrite Nat.add_1_r.
        apply Permutation_trans
          with (firstn fromIndex (sb_shots sb) ++
                x :: skipn (S fromIndex) (sb_shots sb)).
        + apply Permutation_cons_app, Permutation_refl.
        + rewrite <- (@skipn_nth_error _ (sb_shots sb) fromIndex x Hx).
          rewrite firstn_skipn. apply Permutation_refl. }
    split; [|split].
    + rewrite length_renumber. now apply Permutation_length.
    + rewrite map_id_renumber. now apply Permutation_map.
    + assert (Htitle : forall l, map (@title float) (renumber l) =
                                 map (@title float) l).
      { intros l. apply nth_error_ext. intros k.
        rewrite !nth_error_map, nth_error_renumber.
        now destruct (nth_error l k). }
      rewrite Htitle. now apply Permutation_map.
Qed.

Lemma drop_on_row_permutes_shots_witness :
  exists st',
    handleMoveShot appABC 2 0 = Some st' /\
    List.length (shotsOf st') = List.length (shotsOf appABC) /\
    Permutation (map (@id float) (shotsOf st')) (map (@id float) (shotsOf appABC)).
Proof.
  destruct (@drop_on_row_permutes_shots appABC _ _ 2 0 eq_refl eq_refl eq_refl)
    as (st' & Hmove & Hlen & Hperm & _).
  - simpl; lia.
  - simpl; lia.
  - exists st'. split; [exact Hmove|]. split; [exact Hlen|exact Hperm].
Defined.

(** X26.  When [activeProjectId] names the project shown and that project
    shows a storyboard, [handleMoveShot] with two positions of the shown
    sequence stores the moved sequence.  With equal positions it changes
    nothing.  With distinct positions the sequence read back has position
    [toIndex] holding the shot that was at [fromIndex], every other shot in
    its former order (those between the two positions shifted by one), each
    shot with its position plus one as number, and so the numbers 1, 2, ...
    again. *)
Theorem move_shot_stores_moved_sequence (st : AppState) (p : Project)
    (sb : Storyboard) (fromIndex toIndex : nat) :
  activeProject st = Some p -> p_id p = activeProjectId st ->
  activeStoryboard p = Some sb ->
  fromIndex < List.length (shotsOf st) -> toIndex < List.length (shotsOf st) ->
  (fromIndex = toIndex -> handleMoveShot st fromIndex toIndex = Some st) /\
  (fromIndex <> toIndex ->
   exists st',
     handleMoveShot st fromIndex toIndex = Some st' /\
     List.length (shotsOf st') = List.length (shotsOf st) /\
     dense (shotsOf st') /\
     forall i, i < List.length (shotsOf st) ->
       exists s,
         nth_error (shotsOf st) (sourceIndex fromIndex toIndex i) = Some s /\
         nth_error (shotsOf st') i = Some (setNumber s (Z.of_nat i + 1))).
Proof.
  intros Hp Hid Hsb Hf Ht. split.
  - intros ->. unfold handleMoveShot. now rewrite Nat.eqb_refl.
  - intros Hne.
    assert (Hshots : shotsOf st = sb_shots sb).
    { unfold shotsOf. now rewrite Hp, Hsb. }
    rewrite Hshots in *.
    destruct (@updatedShots_positions (sb_shots sb) fromIndex toIndex Hf Ht Hne)
      as (l & Hl & Hlen & Hdense & Hpos).
    destruct (@handleMoveShot_read_back st p sb fromIndex toIndex l
                Hp Hid Hsb Hne Hl) as (st' & Hmove & Hback).
    exists st'. rewrite Hback.
    split; [exact Hmove|]. split; [exact Hlen|].
    split; [exact Hdense|exact Hpos].
Qed.

Lemma move_shot_stores_moved_sequence_witness :
  exists st',
    handleMoveShot appABC 0 2 = Some st' /\
    List.length (shotsOf st') = List.length (shotsOf appABC) /\
    dense (shotsOf st') /\
    forall i, i < List.length (shotsOf appABC) ->
      exists s,
        nth_error (shotsOf appABC) (sourceIndex 0 2 i) = Some s /\
        nth_error (shotsOf st') i = Some (setNumber s (Z.of_nat i + 1)).
Proof.
  refine (proj2 (@move_shot_stores_moved_sequence appABC _ _ 0 2
                   eq_refl eq_refl eq_refl _ _) _); simpl; lia.
Defined.

(** ** The active storyboard under the store operations *)

Lemma storeShots_activeOwned (st : AppState) (p : Project) (sb : Storyboard)
    (l : list JsShot) :
  (forall q, In q (projects st) -> activeOwned q) -> In p (projects st) ->
  forall q, In q (storeShots st p sb l) -> activeOwned q.
Proof.
  intros Hall Hp q Hq. unfold storeShots in Hq.
  apply in_map_iff in Hq. destruct Hq as (x & Hx & Hin).
  destruct (String.eqb (p_id x) (activeProjectId st)); [|subst q; now apply Hall].
  subst q. destruct (Hall p Hp) as [Hne Hown]. unfold activeOwned. simpl.
  split.
  - destruct (p_storyboards p); [contradiction|discriminate].
  - rewrite map_map.
    erewrite map_ext; [exact Hown|].
    intros y. simpl.
    destruct (String.eqb_spec (sb_id y) (sb_id sb)) as [Heq|]; [|reflexivity].
    simpl. now symmetry.
Qed.

Lemma updateShot_activeOwned (apid shotId : string) (updates : PartialShot)
    (ps : list Project) :
  (forall q, In q ps -> activeOwned q) ->
  forall q, In q (updateShot apid shotId updates ps) -> activeOwned q.
Proof.
  intros Hall q Hq. unfold updateShot in Hq.
  apply in_map_iff in Hq. destruct Hq as (x & Hx & Hin).
  destruct (String.eqb (p_id x) apid); [|subst q; now apply Hall].
  subst q. destruct (Hall x Hin) as [Hne Hown]. unfold activeOwned. simpl.
  split.
  - destruct (p_storyboards x); [contradiction|discriminate].
  - rewrite map_map.
    erewrite map_ext; [exact Hown|].
    intros y. simpl.
    now destruct (String.eqb (sb_id y) (p_activeStoryboardId x)).
Qed.

(** X7.  When every project owns a storyboard and points at one it owns,
    it is still so after adding a storyboard (which becomes the active one),
    after selecting a storyboard the active project owns, after
    [executeDelete], after adding, deleting, moving or updating a shot, and
    after [handleNewProject] when the clock gives one reading for both
    storyboard ids. *)
Theorem store_keeps_active_storyboard_owned (st : AppState) :
  (forall q, In q (projects st) -> activeOwned q) ->
  (forall now q, In q (projects (createStoryboard st now)) -> activeOwned q) /\
  (forall p sbid,
     activeProject st = Some p -> In sbid (map sb_id (p_storyboards p)) ->
     forall q, In q (projects (selectStoryboard st sbid)) -> activeOwned q) /\
  (forall st', executeDelete st = Ok st' ->
     forall q, In q (projects st') -> activeOwned q) /\
  (forall now q, In q (projects (handleAddShot st now)) -> activeOwned q) /\
  (forall shotId q, In q (projects (deleteShot st shotId)) -> activeOwned q) /\
  (forall fromIndex toIndex st',
     handleMoveShot st fromIndex toIndex = Some st' ->
     forall q, In q (projects st') -> activeOwned q) /\
  (forall apid shotId updates q,
     In q (updateShot apid shotId updates (projects st)) -> activeOwned q) /\
  (forall now1 now q,
     In q (projects (handleNewProject st now1 now now)) -> activeOwned q).
Proof.
  intros Hall.
  split; [|split; [|split; [|split; [|split; [|split; [|split]]]]]].
  - intros now q. unfold createStoryboard, withActive.
    destruct (activeProject st) as [p|] eqn:Hp; [|apply Hall].
    destruct (activeStoryboard p) as [sb|]; [|apply Hall].
    simpl. intros Hq. apply in_map_iff in Hq. destruct Hq as (x & Hx & Hin).
    destruct (String.eqb (p_id x) (activeProjectId st)); [|subst q; now apply Hall].
    subst q. unfold activeOwned. simpl. split.
    + destruct (p_storyboards p); discriminate.
    + rewrite map_app. apply in_or_app. right. now left.
  - intros p sbid Hp Hown q. unfold selectStoryboard, withActive. rewrite Hp.
    destruct (activeStoryboard p) as [sb|]; [|apply Hall].
    simpl. intros Hq. apply in_map_iff in Hq. destruct Hq as (x & Hx & Hin).
    destruct (String.eqb (p_id x) (activeProjectId st)); [|subst q; now apply Hall].
    subst q. unfold activeOwned. simpl. split; [|exact Hown].
    exact (proj1 (Hall p (activeProject_In _ Hp))).
  - intros st' Hdel. exact (executeDelete_keeps_active_owned st Hall Hdel).
  - intros now q. unfold handleAddShot, withActive.
    destruct (activeProject st) as [p|] eqn:Hp; [|apply Hall].
    destruct (activeStoryboard p) as [sb|]; [|apply Hall].
    simpl. apply storeShots_activeOwned; [exact Hall|now apply activeProject_In].
  - intros shotId q. unfold deleteShot, withActive.
    destruct (activeProject st) as [p|] eqn:Hp; [|apply Hall].
    destruct (activeStoryboard p) as [sb|]; [|apply Hall].
    simpl. apply storeShots_activeOwned; [exact Hall|now apply activeProject_In].
  - intros fromIndex toIndex st'. unfold handleMoveShot.
    destruct (Nat.eqb fromIndex toIndex);
      [intros H; inversion H; subst; exact Hall|].
    destruct (activeProject st) as [p|] eqn:Hp;
      [|intros H; inversion H; subst; exact Hall].
    destruct (activeStoryboard p) as [sb|];
      [|intros H; inversion H; subst; exact Hall].
    destruct (updatedShots _ _ _) as [l|]; [|discriminate].
    intros H; inversion H. simpl.
    apply storeShots_activeOwned; [exact Hall|now apply activeProject_In].
  - intros apid shotId updates. now apply updateShot_activeOwned.
  - intros now1 now q. simpl. intros Hq. apply in_app_or in Hq.
    destruct Hq as [Hq|[<-|[]]]; [now apply Hall|].
    split; [discriminate|]. simpl. now left.
Qed.

Lemma store_keeps_active_storyboard_owned_witness :
  (forall q, In q (projects initialApp) -> activeOwned q) /\
  (forall q, In q (projects (createStoryboard initialApp 1700)) -> activeOwned q) /\
  (forall q, In q (projects (deleteShot initialApp "2")) -> activeOwned q).
Proof.
  assert (Hall : forall q, In q (projects initialApp) -> activeOwned q).
  { intros q [<-|[]]. split; [discriminate|]. simpl. now left. }
  destruct (store_keeps_active_storyboard_owned initialApp Hall)
    as (Hcreate & _ & _ & _ & Hdel & _).
  split; [exact Hall|]. split; [exact (Hcreate 1700%Z)|exact (Hdel "2")].
Defined.

(** ** Deleting a project *)

Lemma filter_other_ids (ps : list Project) (i : string) :
  ~ In i (map p_id ps) ->
  filter (fun p => negb (String.eqb (p_id p) i)) ps = ps.
Proof.
  induction ps as [|a l IH]; intros Hfresh; simpl in *; [reflexivity|].
  destruct (String.eqb_spec (p_id a) i) as [Heq|Hne]; simpl.
  - elim Hfresh. now left.
  - f_equal. apply IH. intros Hin. apply Hfresh. now right.
Qed.

(** With distinct ids, filtering one id out removes at most one project. *)
Lemma filter_one_id (ps : list Project) (i : string) :
  NoDup (map p_id ps) ->
  List.length ps <=
  S (List.length (filter (fun p => negb (String.eqb (p_id p) i)) ps)).
Proof.
  induction ps as [|a l IH]; intros Hnd; simpl in *; [lia|].
  inversion Hnd as [|? ? Hnotin Hnd']; subst.
  destruct (String.eqb_spec (p_id a) i) as [Heq|Hne]; simpl.
  - subst i. rewrite (@filter_other_ids l (p_id a) Hnotin). lia.
  - specialize (IH Hnd'). lia.
Qed.

(** X8.  From a state with no deletion pending, a store that holds at
    least one project and distinct project ids, asking to delete a project
    and confirming never throws and never empties the store: with a single
    project the request is ignored, and otherwise at most the named project
    goes.  Every project left was there before, the dialog is closed, and if
    [activeProjectId] named a project before, it names one afterwards (the
    first remaining project when the active one was deleted). *)
Theorem delete_project_keeps_a_project (st : AppState)
    (projectId projectName : string) :
  deleteConfirmation st = closedConfirmation ->
  projects st <> [] ->
  NoDup (map p_id (projects st)) ->
  exists st',
    executeDelete (requestDeleteProject st projectId projectName) = Ok st' /\
    projects st' <> [] /\
    (forall q, In q (projects st') -> In q (projects st)) /\
    deleteConfirmation st' = closedConfirmation /\
    ((exists q, In q (projects st) /\ p_id q = activeProjectId st) ->
     exists q', In q' (projects st') /\ p_id q' = activeProjectId st').
Proof.
  intros Hdc Hne Hnd. unfold requestDeleteProject.
  destruct (Nat.leb_spec (List.length (projects st)) 1) as [Hone|Hmany].
  - unfold executeDelete. rewrite Hdc. simpl.
    eexists. split; [reflexivity|]. simpl. repeat split; auto.
  - unfold executeDelete. simpl.
    destruct projectId as [|c rest] eqn:Hpid.
    + simpl. eexists. split; [reflexivity|]. simpl. repeat split; auto.
    + simpl. rewrite <- Hpid.
      pose proof (@filter_one_id (projects st) projectId Hnd) as Hlen.
      destruct (filter (fun p => negb (String.eqb (p_id p) projectId))
                       (projects st)) as [|first others] eqn:Hrem;
        [simpl in Hlen; lia|].
      assert (Hsub : forall q, In q (first :: others) -> In q (projects st)).
      { intros q Hq. rewrite <- Hrem in Hq. now apply filter_In in Hq. }
      destruct (String.eqb_spec (activeProjectId st) projectId) as [Heq|Hneq].
      * eexists. split; [reflexivity|]. simpl.
        split; [discriminate|]. split; [exact Hsub|]. split; [reflexivity|].
        intros _. exists first. split; [now left|reflexivity].
      * eexists. split; [reflexivity|]. simpl.
        split; [discriminate|]. split; [exact Hsub|]. split; [reflexivity|].
        intros (q & Hq & Hqid). exists q. split; [|exact Hqid].
        change (In q (first :: others)). rewrite <- Hrem.
        apply filter_In. split; [exact Hq|].
        apply negb_true_iff, String.eqb_neq. congruence.
Qed.

Lemma delete_project_keeps_a_project_witness :
  exists st',
    executeDelete (requestDeleteProject
                     (handleNewProject initialApp 1700 1700 1700)
                     "p-1700" "New Project") = Ok st' /\
    projects st' <> [] /\
    exists q', In q' (projects st') /\ p_id q' = activeProjectId st'.
Proof.
  destruct (@delete_project_keeps_a_project
              (handleNewProject initialApp 1700 1700 1700)
              "p-1700" "New Project" eq_refl)
    as (st' & Hdel & Hne & _ & _ & Hact).
  - discriminate.
  - simpl. repeat constructor; simpl; intuition discriminate.
  - exists st'. split; [exact Hdel|]. split; [exact Hne|].
    apply Hact. eexists. split; [right; left; reflexivity|reflexivity].
Defined.

(** ** What [updateShot] leaves alone *)

(** X9.  [updateShot] changes a shot only if the shot carries the given id,
    sits in the storyboard its project names as active when the updater
    runs, and that project carries the project id [updateShot] was given;
    every other shot of the store stays at its place unchanged.  The same
    holds of the second write of [forceRegenerate]: when the result of an
    image generation arrives after the user has moved to another
    storyboard, it does not reach the shot, which keeps the [isGenerating]
    flag it had. *)
Theorem update_shot_touches_only_addressed (apid shotId : string)
    (updates : PartialShot) (ps : list Project) (i j k : nat)
    (p : Project) (sb : Storyboard) (s : JsShot) :
  nth_error ps i = Some p ->
  nth_error (p_storyboards p) j = Some sb ->
  nth_error (sb_shots sb) k = Some s ->
  p_id p <> apid \/ sb_id sb <> p_activeStoryboardId p \/ id s <> shotId ->
  shotAt (updateShot apid shotId updates ps) i j k = Some s /\
  forall generatedImage promptText,
    shotAt (finishRegenerate apid shotId generatedImage promptText ps) i j k =
      Some s.
Proof.
  intros Hp Hsb Hs Hother.
  assert (Hgen : forall u, shotAt (updateShot apid shotId u ps) i j k = Some s).
  { intros u. unfold shotAt, updateShot. rewrite nth_error_map, Hp. simpl.
    destruct (String.eqb_spec (p_id p) apid) as [Hpid|Hpid];
      [|now rewrite Hsb].
    simpl. rewrite nth_error_map, Hsb. simpl.
    destruct (String.eqb_spec (sb_id sb) (p_activeStoryboardId p)) as [Hsbid|Hsbid];
      [|exact Hs].
    simpl. rewrite nth_error_map, Hs. simpl.
    destruct (String.eqb_spec (id s) shotId) as [Hsid|Hsid]; [|reflexivity].
    destruct Hother as [H|[H|H]]; contradiction. }
  split; [apply Hgen|]. intros generatedImage promptText. apply Hgen.
Qed.

Lemma update_shot_touches_only_addressed_witness :
  let s := mkShot "1" 1 3.5%float "A" None None (Some true) None in
  let ps := [ mkProject "p-1" "Film"
                [ mkStoryboard "sb-1" "Board" [ s ];
                  mkStoryboard "sb-2" "Other" [] ]
                "sb-2" R16_9 ] in
  shotAt (finishRegenerate "p-1" "1" (Some "data:image/png;base64,AAAA") "A" ps)
         0 0 0 = Some s /\
  isGenerating s = Some true /\ imageUrl s = None.
Proof.
  intros s ps. split; [|split; reflexivity].
  refine (proj2 (@update_shot_touches_only_addressed "p-1" "1" noUpdates ps
                   0 0 0 _ _ s eq_refl eq_refl eq_refl _) _ _).
  right. left. discriminate.
Defined.

(** * Further properties of image generation *)

Lemma firstInlineData_some (ps : list Part) (u : string) :
  firstInlineData ps = Some u ->
  exists before d after,
    ps = before ++ mkPart (Some d) :: after /\
    (forall q, In q before -> inlineData q = None) /\
    u = String.append "data:"
          (String.append (mimeType d) (String.append ";base64," (data d))).
Proof.
  induction ps as [|q ps IH]; simpl; [discriminate|].
  destruct q as [[d|]]; simpl.
  - intros H. inversion H. exists [], d, ps. repeat split. intros q [].
  - intros H. destruct (IH H) as (before & d & after & Hps & Hnone & Hu).
    exists (mkPart None :: before), d, after. subst ps. repeat split; auto.
    intros q [<-|Hq]; [reflexivity|now apply Hnone].
Qed.

Lemma firstInlineData_none (ps : list Part) :
  firstInlineData ps = None <-> forall q, In q ps -> inlineData q = None.
Proof.
  induction ps as [|q ps IH]; simpl.
  - split; [intros _ q []|reflexivity].
  - destruct (inlineData q) as [d|] eqn:Hq.
    + split; [discriminate|]. intros H.
      specialize (H q (or_introl eq_refl)). congruence.
    + rewrite IH. split.
      * intros H r [<-|Hr]; [exact Hq|now apply H].
      * intros H r Hr. apply H. now right.
Qed.


(** X10.  What [generateShotSketch] returns is the data URL of the first
    part with inline data of the first candidate: a result exists only when
    the service resolved with a first candidate that has content and parts,
    the parts before the chosen one carry no inline data, and the result is
    "data:", the MIME type, ";base64," and the data.  With parts present the
    result is [null] exactly when no part carries inline data.  A result is
    never the empty string, so the [generatedImage || undefined] of
    [forceRegenerate] never discards it. *)
Theorem generate_returns_first_inline_image
    (generateContent : string -> string -> ApiOutcome)
    (prompt aspectRatio : string) :
  (forall u,
     generateShotSketch generateContent prompt aspectRatio = Some u ->
     exists r c others ct before d after,
       generateContent (fullPrompt prompt) aspectRatio = Resolved r /\
       candidates r = Some (c :: others) /\
       content c = Some ct /\
       parts ct = Some (before ++ mkPart (Some d) :: after) /\
       (forall q, In q before -> inlineData q = None) /\
       u = String.append "data:"
             (String.append (mimeType d) (String.append ";base64," (data d)))) /\
  (forall r c others ct ps,
     generateContent (fullPrompt prompt) aspectRatio = Resolved r ->
     candidates r = Some (c :: others) ->
     content c = Some ct -> parts ct = Some ps ->
     (generateShotSketch generateContent prompt aspectRatio = None <->
      forall q, In q ps -> inlineData q = None)) /\
  orUndefined (generateShotSketch generateContent prompt aspectRatio) =
    generateShotSketch generateContent prompt aspectRatio.
Proof.
  unfold generateShotSketch.
  split; [|split].
  - intros u.
    destruct (generateContent (fullPrompt prompt) aspectRatio) as [|r];
      [discriminate|].
    destruct (candidates r) as [[|c others]|] eqn:Hc; try discriminate.
    destruct (content c) as [ct|] eqn:Hct; [|discriminate].
    destruct (parts ct) as [ps|] eqn:Hps; [|discriminate].
    intros H. destruct (firstInlineData_some _ H)
      as (before & d & after & Hsplit & Hnone & Hu).
    exists r, c, others, ct, before, d, after. subst ps. now repeat split.
  - intros r c others ct ps Hr Hc Hct Hps. rewrite Hr, Hc, Hct, Hps.
    apply firstInlineData_none.
  - destruct (generateContent (fullPrompt prompt) aspectRatio) as [|r];
      [reflexivity|].
    destruct (candidates r) as [[|c others]|]; try reflexivity.
    destruct (content c) as [ct|]; [|reflexivity].
    destruct (parts ct) as [ps|]; [|reflexivity].
    destruct (firstInlineData ps) as [u|] eqn:Hu; [|reflexivity].
    destruct (firstInlineData_some _ Hu) as (_ & d & _ & _ & _ & ->).
    reflexivity.
Qed.

Lemma generate_returns_first_inline_image_witness :
  let answer := fun _ _ : string =>
    Resolved (mkResponse (Some [ mkCandidate (Some (mkContent (Some
      [ mkPart None; mkPart (Some (mkInlineData "image/png" "AAAA"));
        mkPart (Some (mkInlineData "image/jpeg" "BBBB")) ]))) ])) in
  generateShotSketch answer "a door" "16:9" = Some "data:image/png;base64,AAAA" /\
  exists d, "data:image/png;base64,AAAA" =
            String.append "data:"
              (String.append (mimeType d) (String.append ";base64," (data d))).
Proof.
  intros answer. split; [reflexivity|].
  destruct (proj1 (generate_returns_first_inline_image answer "a door" "16:9")
              "data:image/png;base64,AAAA" eq_refl)
    as (_ & _ & _ & _ & _ & d & _ & _ & _ & _ & _ & _ & Hu).
  now exists d.
Defined.



(** X12.  [forceRegenerate] changes nothing, whatever the service would
    answer, when the active project's [activeStoryboardId] names none of its
    storyboards (even though the render then shows the first storyboard),
    when no shot of the active storyboard carries the id, and when the first
    shot that carries it has a title that trims to the empty string. *)
Theorem regeneration_skipped (trim : string -> string)
    (generateContent : string -> string -> ApiOutcome)
    (st : AppState) (shotId : string) (p : Project) :
  activeProject st = Some p ->
  (find (fun sb => String.eqb (sb_id sb) (p_activeStoryboardId p))
        (p_storyboards p) = None ->
   forceRegenerate trim generateContent st shotId = st) /\
  (forall sb,
     find (fun sb => String.eqb (sb_id sb) (p_activeStoryboardId p))
          (p_storyboards p) = Some sb ->
     ~ In shotId (map (@id float) (sb_shots sb)) ->
     forceRegenerate trim generateContent st shotId = st) /\
  (forall sb s,
     find (fun sb => String.eqb (sb_id sb) (p_activeStoryboardId p))
          (p_storyboards p) = Some sb ->
     find (fun s => String.eqb (id s) shotId) (sb_shots sb) = Some s ->
     trim (title s) = EmptyString ->
     forceRegenerate trim generateContent st shotId = st).
Proof.
  intros Hp. unfold forceRegenerate, beginRegenerate. rewrite Hp.
  split; [|split].
  - intros Hnone. now rewrite Hnone.
  - intros sb Hsb Hnotin. rewrite Hsb.
    destruct (find (fun s => String.eqb (id s) shotId) (sb_shots sb))
      as [s|] eqn:Hfind; [|reflexivity].
    apply find_some in Hfind. destruct Hfind as [Hin Heq].
    apply String.eqb_eq in Heq. elim Hnotin.
    apply in_map_iff. now exists s.
  - intros sb s Hsb Hs Hblank. now rewrite Hsb, Hs, Hblank.
Qed.

Lemma regeneration_skipped_witness :
  let trim := fun t : string => t in
  let answer := fun _ _ : string => Rejected in
  forceRegenerate trim answer initialApp "9" = initialApp /\
  forceRegenerate trim answer
    (handleAddShot (handleNewProject initialApp 1000 1000 1001) 1002)
    "shot-1002" =
  handleAddShot (handleNewProject initialApp 1000 1000 1001) 1002.
Proof.
  intros trim answer. split.
  - destruct (@regeneration_skipped trim answer initialApp "9" _ eq_refl)
      as (_ & Hmissing & _).
    apply (Hmissing _ eq_refl). simpl. intros [H|[H|[H|[]]]]; discriminate.
  - destruct (@regeneration_skipped trim answer
                (handleAddShot (handleNewProject initialApp 1000 1000 1001) 1002)
                "shot-1002" _ eq_refl) as (Hdangling & _).
    apply Hdangling. reflexivity.
Defined.

(** * Further properties of the players *)

(** X13.  In the timer-driven player the play/pause button changes
    [isPlaying] only, and a paused player receives no tick: pausing a playing
    player, waiting any number of tick intervals and resuming gives back
    exactly the state it had, index and elapsed time included. *)
Theorem pause_and_resume_keep_position {num : Type} {N : Number num}
    (shots : list (Shot num)) (st : PlayerState num) (n : nat) :
  isPlaying st = true ->
  run shots (TogglePlay :: repeat Tick n ++ [TogglePlay]) st = Ok st /\
  exists paused,
    run shots (TogglePlay :: repeat Tick n) st = Ok paused /\
    isPlaying paused = false /\
    currentShotIndex paused = currentShotIndex st /\
    elapsedTime paused = elapsedTime st.
Proof.
  intros Hplay.
  set (paused := mkPlayer (currentShotIndex st) false (elapsedTime st)).
  assert (Hpaused : run shots (TogglePlay :: repeat Tick n) st = Ok paused).
  { cbn [run step]. rewrite Hplay. cbn [negb].
    now apply run_ticks_paused. }
  split.
  - change (TogglePlay :: repeat Tick n ++ [TogglePlay])
      with ((TogglePlay :: repeat Tick n) ++ [TogglePlay]).
    rewrite (@run_app _ _ shots _ _ _ _ Hpaused). cbn [run step].
    destruct st as [i p e]. simpl in *. now subst p.
  - exists paused. now repeat split.
Qed.

Lemma pause_and_resume_keep_position_witness :
  let st := mkPlayer 1 true 4.2%float in
  isPlaying st = true /\
  run DEFAULT_SHOTS (TogglePlay :: repeat Tick 25 ++ [TogglePlay]) st = Ok st.
Proof.
  split; [reflexivity|].
  exact (proj1 (@pause_and_resume_keep_position float binary64 DEFAULT_SHOTS
                  (mkPlayer 1 true 4.2%float) 25 eq_refl)).
Defined.

(** X14.  Once the elapsed time plus one tick interval reaches the end of
    the last shot, playback is over for good: whatever ticks and play/pause
    presses follow, no step throws, the index and the elapsed time never
    change again, and every tick of a resumed player pauses it at once.  This
    player has no way to play the sequence a second time. *)
Theorem ended_playback_cannot_resume {num : Type} {N : Number num}
    (shots : list (Shot num)) (st : PlayerState num) (cur : Shot num)
    (es : list Event) :
  currentShot shots st = Some cur ->
  ~ currentShotIndex st + 1 < List.length shots ->
  geb (add (elapsedTime st) tickSeconds)
      (add (startAt shots (currentShotIndex st)) (duration cur)) = true ->
  exists st',
    run shots es st = Ok st' /\
    currentShotIndex st' = currentShotIndex st /\
    elapsedTime st' = elapsedTime st /\
    (forall before, es = before ++ [Tick] -> isPlaying st' = false).
Proof.
  intros Hcur Hlast Hge.
  assert (Hstep : forall s e,
            currentShotIndex s = currentShotIndex st ->
            elapsedTime s = elapsedTime st ->
            exists s', step shots s e = Ok s' /\
                       currentShotIndex s' = currentShotIndex st /\
                       elapsedTime s' = elapsedTime st /\
                       (e = Tick -> isPlaying s' = false)).
  { intros s e Hi He. destruct e; cbn [step].
    - destruct (isPlaying s) eqn:Hp.
      + unfold onInterval, currentShot, currentShotStartTime, notLast.
        rewrite Hi, He. unfold currentShot in Hcur. rewrite Hcur.
        change (sumDurations (firstn (currentShotIndex st) shots))
          with (startAt shots (currentShotIndex st)).
        rewrite Hge.
        destruct (Z.ltb_spec (Z.of_nat (currentShotIndex st))
                             (Z.of_nat (List.length shots) - 1)) as [Hlt|_];
          [lia|].
        eexists. split; [reflexivity|]. simpl. now repeat split.
      + exists s. now repeat split.
    - eexists. split; [reflexivity|]. simpl. repeat split; auto. discriminate. }
  assert (Hrun : forall l s,
            currentShotIndex s = currentShotIndex st ->
            elapsedTime s = elapsedTime st ->
            exists s', run shots l s = Ok s' /\
                       currentShotIndex s' = currentShotIndex st /\
                       elapsedTime s' = elapsedTime st /\
                       (forall before, l = before ++ [Tick] ->
                                       isPlaying s' = false)).
  { induction l as [|e l IH]; intros s Hi He.
    - exists s. split; [reflexivity|]. split; [exact Hi|]. split; [exact He|].
      intros before Hnil. now destruct before.
    - destruct (Hstep s e Hi He) as (s1 & Hs1 & Hi1 & He1 & Ht1).
      destruct (IH s1 Hi1 He1) as (s2 & Hs2 & Hi2 & He2 & Ht2).
      exists s2. cbn [run]. rewrite Hs1. split; [exact Hs2|].
      split; [exact Hi2|]. split; [exact He2|].
      intros before Hsplit. destruct before as [|b before].
      + simpl in Hsplit. inversion Hsplit; subst. simpl in Hs2.
        inversion Hs2; subst. now apply Ht1.
      + simpl in Hsplit. inversion Hsplit; subst. now apply (Ht2 before). }
  now apply Hrun.
Qed.

Lemma ended_playback_cannot_resume_witness :
  let st := mkPlayer 2 false 9.9999999999999805%float in
  exists st',
    run DEFAULT_SHOTS [TogglePlay; Tick; TogglePlay; Tick] st = Ok st' /\
    currentShotIndex st' = 2 /\ isPlaying st' = false.
Proof.
  intros st.
  destruct (@ended_playback_cannot_resume float binary64 DEFAULT_SHOTS st
              (mkShot "3" 3 4.5%float
                 "Medium shot from behind the woman as she stands before an old archway."
                 (Some "Medium Shot") (Some EmptyString) None (Some EmptyString))
              [TogglePlay; Tick; TogglePlay; Tick] eq_refl)
    as (st' & Hrun & Hi & _ & Hstop).
  - simpl. lia.
  - reflexivity.
  - exists st'. split; [exact Hrun|]. split; [exact Hi|].
    exact (Hstop [TogglePlay; Tick; TogglePlay] eq_refl).
Defined.

(** ** A duration that is not a number *)

Lemma add_nan_right (x : float) : PrimFloat.add x nan = nan.
Proof.
  rewrite <- (SF2Prim_Prim2SF (PrimFloat.add x nan)), add_spec.
  destruct (Prim2SF x); reflexivity.
Qed.

Lemma leb_nan_left (x : float) : PrimFloat.leb nan x = false.
Proof. rewrite leb_spec. reflexivity. Qed.

(** X16.  Clearing the duration field of a shot stores NaN
    ([parseFloat] of the empty string).  In the timer-driven player, in
    binary64 arithmetic, a current shot whose duration is NaN is never left
    and never ends playback: every tick only adds the tick interval to the
    elapsed time, so after any number of ticks the player still shows that
    shot and is still playing. *)
Theorem nan_duration_holds_the_player (shots : list JsShot)
    (st : PlayerState float) (cur : JsShot) (n : nat) :
  isPlaying st = true ->
  currentShot shots st = Some cur ->
  duration cur = nan ->
  step shots st Tick =
    Ok (mkPlayer (currentShotIndex st) true
                 (PrimFloat.add (elapsedTime st) tickSeconds)) /\
  exists st',
    run shots (repeat Tick n) st = Ok st' /\
    currentShotIndex st' = currentShotIndex st /\
    isPlaying st' = true.
Proof.
  intros Hplay Hcur Hnan.
  assert (Hstep : forall s,
            isPlaying s = true -> currentShotIndex s = currentShotIndex st ->
            step shots s Tick =
              Ok (mkPlayer (currentShotIndex s) true
                           (PrimFloat.add (elapsedTime s) tickSeconds))).
  { intros s Hp Hi. cbn [step]. rewrite Hp.
    unfold onInterval, currentShot. rewrite Hi.
    unfold currentShot in Hcur. rewrite Hcur, Hnan.
    cbn [geb add binary64]. rewrite add_nan_right, leb_nan_left.
    now rewrite Hp. }
  split; [now apply Hstep|].
  assert (Hrun : forall m s,
            isPlaying s = true -> currentShotIndex s = currentShotIndex st ->
            exists s', run shots (repeat Tick m) s = Ok s' /\
                       currentShotIndex s' = currentShotIndex st /\
                       isPlaying s' = true).
  { induction m as [|m IH]; intros s Hp Hi.
    - exists s. now repeat split.
    - cbn [repeat run]. rewrite (Hstep s Hp Hi). apply IH; [reflexivity|exact Hi]. }
  now apply Hrun.
Qed.

Lemma nan_duration_holds_the_player_witness :
  let shots := [plainShot "A" 1 3.5%float; plainShot "B" 2 nan;
                plainShot "C" 3 4.5%float] in
  let st := mkPlayer 1 true 3.5%float in
  exists st',
    run shots (repeat Tick 1000) st = Ok st' /\
    currentShotIndex st' = 1 /\ isPlaying st' = true.
Proof.
  intros shots st.
  exact (proj2 (@nan_duration_holds_the_player shots st (plainShot "B" 2 nan)
                  1000 eq_refl eq_refl eq_refl)).
Defined.

(** ** The inline player *)

Lemma timeouts_succ (shots : list JsShot) (n : nat) :
  timeouts shots (S n) = InlinePlayer.onTimeout shots (timeouts shots n).
Proof. reflexivity. Qed.

Lemma timeouts_before_last (shots : list JsShot) (k : nat) :
  k < List.length shots ->
  timeouts shots k =
    InlinePlayer.mkState k true
      (Some (InlinePlayer.mkTimer (InlinePlayer.shotDuration shots k) 0)).
Proof.
  induction k as [|k IH]; intros Hk; [reflexivity|].
  rewrite timeouts_succ, IH by lia.
  unfold InlinePlayer.onTimeout. cbn [InlinePlayer.currentIndex].
  destruct (Z.ltb_spec (Z.of_nat k) (Z.of_nat (List.length shots) - 1)) as [_|];
    [|lia].
  unfold InlinePlayer.commit. cbn [InlinePlayer.currentIndex InlinePlayer.isPlaying].
  replace (Nat.eqb (k + 1) k) with false by (symmetry; apply Nat.eqb_neq; lia).
  cbn [andb]. unfold InlinePlayer.arm. now rewrite Nat.add_1_r.
Qed.

(** X17.  The inline player of [App.tsx] plays a non-empty sequence through
    once: after [k] timeouts, for [k] below the length, it shows shot [k], is
    playing and has just armed a timeout of that shot's duration in
    milliseconds; the timeout of the last shot sets [isPlaying] to false,
    leaves the index on the last shot and arms nothing, and later timeouts
    could change nothing. *)
Theorem inline_player_plays_through (shots : list JsShot) :
  shots <> [] ->
  (forall k, k < List.length shots ->
     timeouts shots k =
       InlinePlayer.mkState k true
         (Some (InlinePlayer.mkTimer (InlinePlayer.shotDuration shots k) 0))) /\
  (forall n, List.length shots <= n ->
     timeouts shots n =
       InlinePlayer.mkState (List.length shots - 1) false None).
Proof.
  intros Hne. split; [intros k Hk; now apply timeouts_before_last|].
  assert (Hlen : 0 < List.length shots) by (destruct shots; [contradiction|simpl; lia]).
  assert (Hstop : forall t,
            InlinePlayer.onTimeout shots
              (InlinePlayer.mkState (List.length shots - 1) true t) =
              InlinePlayer.mkState (List.length shots - 1) false None).
  { intros t. unfold InlinePlayer.onTimeout. cbn [InlinePlayer.currentIndex].
    destruct (Z.ltb_spec (Z.of_nat (List.length shots - 1))
                         (Z.of_nat (List.length shots) - 1)) as [|_]; [lia|].
    unfold InlinePlayer.commit.
    cbn [InlinePlayer.currentIndex InlinePlayer.isPlaying].
    rewrite Nat.eqb_refl. reflexivity. }
  assert (Hstay : InlinePlayer.onTimeout shots
                    (InlinePlayer.mkState (List.length shots - 1) false None) =
                  InlinePlayer.mkState (List.length shots - 1) false None).
  { unfold InlinePlayer.onTimeout. cbn [InlinePlayer.currentIndex].
    destruct (Z.ltb_spec (Z.of_nat (List.length shots - 1))
                         (Z.of_nat (List.length shots) - 1)) as [|_]; [lia|].
    unfold InlinePlayer.commit.
    cbn [InlinePlayer.currentIndex InlinePlayer.isPlaying].
    rewrite Nat.eqb_refl. reflexivity. }
  intros n Hn.
  induction n as [|n IH]; [lia|].
  destruct (Nat.eq_dec (List.length shots) (S n)) as [Heq|Hneq].
  - rewrite timeouts_succ, (@timeouts_before_last shots n) by lia.
    replace n with (List.length shots - 1) at 1 by lia. apply Hstop.
  - rewrite timeouts_succ, IH by lia. exact Hstay.
Qed.

Lemma inline_player_plays_through_witness :
  DEFAULT_SHOTS <> [] /\
  timeouts DEFAULT_SHOTS 1 =
    InlinePlayer.mkState 1 true (Some (InlinePlayer.mkTimer 2000 0)) /\
  timeouts DEFAULT_SHOTS 3 = InlinePlayer.mkState 2 false None.
Proof.
  assert (Hne : DEFAULT_SHOTS <> []) by discriminate.
  destruct (inline_player_plays_through Hne) as (Hplay & Hend).
  split; [exact Hne|]. split.
  - exact (Hplay 1 ltac:(simpl; lia)).
  - exact (Hend 3 ltac:(simpl; lia)).
Defined.

(** X18.  In the inline player a pause followed by a resume does not
    continue the pending timeout: pausing clears it, and resuming arms a new
    timeout of the current shot's whole duration with nothing waited, so the
    time the shot had already been shown is forgotten.  The index is
    unchanged. *)
Theorem inline_pause_and_resume_rearm (shots : list JsShot)
    (st : InlinePlayer.State) :
  InlinePlayer.isPlaying st = true ->
  InlinePlayer.togglePlay shots st =
    InlinePlayer.mkState (InlinePlayer.currentIndex st) false None /\
  InlinePlayer.togglePlay shots (InlinePlayer.togglePlay shots st) =
    InlinePlayer.mkState (InlinePlayer.currentIndex st) true
      (Some (InlinePlayer.mkTimer
               (InlinePlayer.shotDuration shots (InlinePlayer.currentIndex st))
               0)).
Proof.
  intros Hplay.
  assert (Hpause : InlinePlayer.togglePlay shots st =
                   InlinePlayer.mkState (InlinePlayer.currentIndex st) false None).
  { unfold InlinePlayer.togglePlay, InlinePlayer.commit.
    rewrite Hplay, Nat.eqb_refl. reflexivity. }
  split; [exact Hpause|]. rewrite Hpause.
  unfold InlinePlayer.togglePlay, InlinePlayer.commit.
  cbn [InlinePlayer.currentIndex InlinePlayer.isPlaying].
  rewrite Nat.eqb_refl. reflexivity.
Qed.

Lemma inline_pause_and_resume_rearm_witness :
  let st := InlinePlayer.elapse 1000 (InlinePlayer.mount DEFAULT_SHOTS) in
  InlinePlayer.timer st = Some (InlinePlayer.mkTimer 3500 1000) /\
  InlinePlayer.togglePlay DEFAULT_SHOTS (InlinePlayer.togglePlay DEFAULT_SHOTS st) =
    InlinePlayer.mkState 0 true (Some (InlinePlayer.mkTimer 3500 0)).
Proof.
  intros st. split; [reflexivity|].
  exact (proj2 (@inline_pause_and_resume_rearm DEFAULT_SHOTS st eq_refl)).
Defined.

(** * Properties of storage and of the download name *)

Lemma getItem_removeItem (key k : string) (s : Storage) :
  getItem k (removeItem key s) =
  if String.eqb k key then None else getItem k s.
Proof.
  unfold getItem, removeItem.
  induction s as [|[a v] s IH]; simpl.
  - now destruct (String.eqb k key).
  - destruct (String.eqb_spec a key) as [Ha|Ha]; simpl.
    + subst a. destruct (String.eqb_spec key k) as [Hk|Hk].
      * subst k. now rewrite String.eqb_refl in *.
      * exact IH.
    + destruct (String.eqb_spec a k) as [Hk|Hk]; simpl; [|exact IH].
      subst a. destruct (String.eqb_spec k key) as [Hkey|]; [contradiction|].
      reflexivity.
Qed.

Lemma getItem_cleanup_fold (keys : list string) (k : string) :
  forall acc,
    getItem k (fold_left (fun acc key => if oldVersion key
                                         then removeItem key acc else acc)
                         keys acc) =
    if oldVersion k && existsb (String.eqb k) keys then None else getItem k acc.
Proof.
  induction keys as [|key keys IH]; intros acc; simpl.
  - now rewrite andb_false_r.
  - rewrite IH.
    destruct (String.eqb_spec k key) as [Heq|Hne].
    + subst key. simpl. destruct (oldVersion k) eqn:Hold; simpl.
      * rewrite getItem_removeItem, String.eqb_refl.
        now destruct (existsb _ keys).
      * reflexivity.
    + simpl. destruct (oldVersion k && existsb (String.eqb k) keys);
        [reflexivity|].
      destruct (oldVersion key); [|reflexivity].
      rewrite getItem_removeItem.
      destruct (String.eqb_spec k key); [contradiction|reflexivity].
Qed.

Lemma getItem_not_a_key (k : string) (s : Storage) :
  existsb (String.eqb k) (map fst s) = false -> getItem k s = None.
Proof.
  unfold getItem. induction s as [|[a v] s IH]; simpl; [reflexivity|].
  rewrite (String.eqb_sym a k).
  destruct (String.eqb k a); simpl; [discriminate|exact IH].
Qed.

(** X19.  The clean-up of old storage versions removes exactly the keys
    that start with sb_projects_v and are not the current key: afterwards
    such a key reads as [null] and every other key reads as before.  In
    particular the current projects and the stored user are kept. *)
Theorem cleanup_removes_only_old_versions (s : Storage) :
  (forall k, getItem k (cleanupOldVersions s) =
             if oldVersion k then None else getItem k s) /\
  getItem STORAGE_KEY (cleanupOldVersions s) = getItem STORAGE_KEY s /\
  getItem USER_STORAGE_KEY (cleanupOldVersions s) = getItem USER_STORAGE_KEY s.
Proof.
  assert (Hall : forall k, getItem k (cleanupOldVersions s) =
                           if oldVersion k then None else getItem k s).
  { intros k. unfold cleanupOldVersions. rewrite getItem_cleanup_fold.
    destruct (oldVersion k); [|reflexivity]. simpl.
    destruct (existsb (String.eqb k) (map fst s)) eqn:Hin; [reflexivity|].
    now apply getItem_not_a_key. }
  split; [exact Hall|]. split; apply Hall.
Qed.

Lemma allChars_slug (l : list (option ascii)) :
  allChars safeChar
    (string_of_list_ascii (map lowerAscii (map replaceOther l))) = true.
Proof.
  induction l as [|u l IH]; simpl; [reflexivity|]. rewrite IH, andb_true_r.
  destruct u as [c|]; [|reflexivity].
  destruct c as [[] [] [] [] [] [] [] []]; reflexivity.
Qed.

Lemma length_string_of_list (l : list ascii) :
  String.length (string_of_list_ascii l) = List.length l.
Proof. induction l as [|c l IH]; simpl; [reflexivity|now rewrite IH]. Qed.

(** X20.  A sketch is offered for download only when the shot has a
    non-empty [imageUrl].  For a shot whose number is an integer of
    magnitude at most 2^53, the file name is then "shot-", the decimal
    number padded to at least two characters, "-", a slug and ".png".  The
    slug has one character for each of the first 20 UTF-16 code units of
    the title and consists only of digits, small letters and underscores;
    every code unit outside ASCII has become an underscore. *)
Theorem download_name_is_safe (shot : JsShot) :
  (Z.abs (number shot) <= 2 ^ 53)%Z ->
  (downloadName shot = None <->
   imageUrl shot = None \/ imageUrl shot = Some EmptyString) /\
  (forall name, downloadName shot = Some name ->
     name = String.append "shot-"
              (String.append (padStart2 (decimal (number shot)))
                 (String.append "-"
                    (String.append (slugOf (title shot)) ".png")))) /\
  allChars safeChar (slugOf (title shot)) = true /\
  String.length (slugOf (title shot)) =
    Nat.min 20 (List.length (codeUnits (title shot))) /\
  (forall i, i < 20 -> nth_error (codeUnits (title shot)) i = Some None ->
     nth_error (list_ascii_of_string (slugOf (title shot))) i =
       Some "_"%char) /\
  2 <= String.length (padStart2 (decimal (number shot))).
Proof.
  intros _.
  split; [|split; [|split; [|split; [|split]]]].
  - unfold downloadName. destruct (imageUrl shot) as [[|c u]|]; split;
      intros H; try discriminate; auto.
    + destruct H as [H|H]; discriminate.
  - unfold downloadName. intros name.
    destruct (imageUrl shot) as [[|c u]|]; try discriminate.
    intros H. now inversion H.
  - unfold slugOf. apply allChars_slug.
  - unfold slugOf.
    now rewrite length_string_of_list, !length_map, length_firstn.
  - intros i Hi Hu. unfold slugOf.
    rewrite list_ascii_of_string_of_list_ascii, !nth_error_map,
      nth_error_firstn.
    apply Nat.ltb_lt in Hi. rewrite Hi, Hu. reflexivity.
  - unfold padStart2. destruct (decimal (number shot)) as [|a [|b r]];
      simpl; lia.
Qed.

Lemma download_name_is_safe_witness :
  let shot := mkShot "shot-1700" 7 2.0%float "Café au lait" (Some "Wide Shot")
                     (Some "data:image/png;base64,AAAA") (Some false) None in
  (Z.abs (number shot) <= 2 ^ 53)%Z /\
  downloadName shot = Some "shot-07-caf__au_lait.png" /\
  "shot-07-caf__au_lait.png" =
    String.append "shot-"
      (String.append (padStart2 (decimal (number shot)))
         (String.append "-" (String.append (slugOf (title shot)) ".png"))) /\
  List.length (codeUnits (title shot)) = 12 /\
  String.length (title shot) = 13.
Proof.
  intros shot.
  assert (Hnum : (Z.abs (number shot) <= 2 ^ 53)%Z) by (vm_compute; discriminate).
  split; [exact Hnum|]. split; [reflexivity|]. split; [|split; reflexivity].
  exact (proj1 (proj2 (@download_name_is_safe shot Hnum)) _ eq_refl).
Defined.

(** * Storyboards of the active project *)

Lemma find_app_fresh {A : Type} (f : A -> bool) (l : list A) (x : A) :
  (forall y, In y l -> f y = false) -> f x = true ->
  find f (l ++ [x]) = Some x.
Proof.
  intros Hl Hx. induction l as [|a l IH]; simpl.
  - now rewrite Hx.
  - rewrite (Hl a (or_introl eq_refl)). apply IH.
    intros y Hy. apply Hl. now right.
Qed.

(** With distinct ids, a project that carries the id of another project of
    the list is that project. *)
Lemma same_id_same_project (ps : list Project) (x y : Project) :
  NoDup (map p_id ps) -> In x ps -> In y ps -> p_id x = p_id y -> x = y.
Proof.
  induction ps as [|a l IH]; intros Hnd Hx Hy Hid; [contradiction|].
  inversion Hnd as [|? ? Hnotin Hnd']; subst.
  destruct Hx as [Hx|Hx]; destruct Hy as [Hy|Hy]; subst.
  - reflexivity.
  - elim Hnotin. rewrite Hid. now apply in_map.
  - elim Hnotin. rewrite <- Hid. now apply in_map.
  - now apply IH.
Qed.

(** X22.  When [activeProjectId] names the project the render shows and no
    storyboard of it already carries the id built from the clock, the
    add-storyboard button leaves the former storyboards in place, followed by
    a new empty one named after their count plus one, and makes it the active
    storyboard, so the active sequence is then empty. *)
Theorem create_storyboard_becomes_active (st : AppState) (now : Z)
    (p : Project) (sb : Storyboard) :
  activeProject st = Some p -> p_id p = activeProjectId st ->
  activeStoryboard p = Some sb ->
  ~ In (String.append "sb-" (decimal now)) (map sb_id (p_storyboards p)) ->
  let newSb :=
    mkStoryboard (String.append "sb-" (decimal now))
      (String.append "Storyboard "
         (decimal (Z.of_nat (List.length (p_storyboards p)) + 1))) [] in
  exists p',
    activeProject (createStoryboard st now) = Some p' /\
    p_storyboards p' = p_storyboards p ++ [newSb] /\
    activeStoryboard p' = Some newSb /\
    shotsOf (createStoryboard st now) = [] /\
    p_name p' = p_name p /\ p_aspectRatio p' = p_aspectRatio p.
Proof.
  intros Hp Hid Hsb Hfresh newSb.
  set (up := setActiveStoryboardId
               (setStoryboards p (p_storyboards p ++ [newSb])) (sb_id newSb)).
  assert (Hact : activeProject (createStoryboard st now) = Some up).
  { unfold createStoryboard, withActive. rewrite Hp, Hsb.
    unfold activeProject. cbn [projects activeProjectId setProjects].
    fold newSb. fold up.
    rewrite (find_replace (fun x => String.eqb (p_id x) (activeProjectId st))
               up (projects st) (activeProject_found _ Hp Hid)); [reflexivity|].
    simpl. now rewrite Hid, String.eqb_refl. }
  assert (Hasb : activeStoryboard up = Some newSb).
  { unfold activeStoryboard. simpl.
    rewrite (@find_app_fresh _ _ (p_storyboards p) newSb); [reflexivity| |].
    - intros y Hy. apply String.eqb_neq. intros Heq. apply Hfresh.
      apply in_map_iff. exists y. split; [exact Heq|exact Hy].
    - simpl. apply String.eqb_refl. }
  exists up. split; [exact Hact|]. split; [reflexivity|].
  split; [exact Hasb|]. split; [|split; reflexivity].
  unfold shotsOf. now rewrite Hact, Hasb.
Qed.

Lemma create_storyboard_becomes_active_witness :
  shotsOf (createStoryboard initialApp 1700) = [] /\
  exists p',
    activeProject (createStoryboard initialApp 1700) = Some p' /\
    map sb_name (p_storyboards p') = ["The Encounter"; "Storyboard 2"].
Proof.
  destruct (@create_storyboard_becomes_active initialApp 1700 _ _
              eq_refl eq_refl eq_refl)
    as (p' & Hact & Hsbs & _ & Hshots & _).
  - simpl. intros [H|[]]. discriminate.
  - split; [exact Hshots|]. exists p'. split; [exact Hact|].
    rewrite Hsbs. reflexivity.
Defined.

(** X23.  With distinct project ids, selecting a storyboard changes
    nothing but the active pointer of the active project: the projects keep
    their ids, names, aspect ratios and storyboards, every other project
    keeps its pointer, and afterwards the render shows the shots of the first
    storyboard that carries the selected id. *)
Theorem select_storyboard_moves_only_the_pointer (st : AppState)
    (sbid : string) (p : Project) (sb target : Storyboard) :
  NoDup (map p_id (projects st)) ->
  activeProject st = Some p -> p_id p = activeProjectId st ->
  activeStoryboard p = Some sb ->
  find (fun x => String.eqb (sb_id x) sbid) (p_storyboards p) = Some target ->
  map p_id (projects (selectStoryboard st sbid)) = map p_id (projects st) /\
  map p_name (projects (selectStoryboard st sbid)) = map p_name (projects st) /\
  map p_storyboards (projects (selectStoryboard st sbid)) =
    map p_storyboards (projects st) /\
  map p_activeStoryboardId (projects (selectStoryboard st sbid)) =
    map (fun x => if String.eqb (p_id x) (activeProjectId st)
                  then sbid else p_activeStoryboardId x)
        (projects st) /\
  shotsOf (selectStoryboard st sbid) = sb_shots target.
Proof.
  intros Hnd Hp Hid Hsb Htarget.
  set (up := setActiveStoryboardId p sbid).
  assert (Hps : projects (selectStoryboard st sbid) =
                map (fun x => if String.eqb (p_id x) (activeProjectId st)
                              then up else x) (projects st)).
  { unfold selectStoryboard, withActive. now rewrite Hp, Hsb. }
  assert (Hsame : forall x, In x (projects st) ->
                            String.eqb (p_id x) (activeProjectId st) = true ->
                            x = p).
  { intros x Hx Heq. apply String.eqb_eq in Heq.
    apply (@same_id_same_project (projects st) x p Hnd Hx
             (@activeProject_In st p Hp)). congruence. }
  rewrite Hps.
  split; [|split; [|split; [|split]]].
  - rewrite map_map. apply map_ext_in. intros x Hx.
    destruct (String.eqb (p_id x) (activeProjectId st)) eqn:Heq; [|reflexivity].
    now rewrite (Hsame x Hx Heq).
  - rewrite map_map. apply map_ext_in. intros x Hx.
    destruct (String.eqb (p_id x) (activeProjectId st)) eqn:Heq; [|reflexivity].
    now rewrite (Hsame x Hx Heq).
  - rewrite map_map. apply map_ext_in. intros x Hx.
    destruct (String.eqb (p_id x) (activeProjectId st)) eqn:Heq; [|reflexivity].
    now rewrite (Hsame x Hx Heq).
  - rewrite map_map. apply map_ext_in. intros x Hx.
    now destruct (String.eqb (p_id x) (activeProjectId st)).
  - unfold shotsOf, activeProject. rewrite Hps.
    assert (Hapid : activeProjectId (selectStoryboard st sbid) = activeProjectId st).
    { unfold selectStoryboard, withActive. now rewrite Hp, Hsb. }
    rewrite Hapid.
    rewrite (find_replace (fun x => String.eqb (p_id x) (activeProjectId st))
               up (projects st) (activeProject_found _ Hp Hid)).
    + simpl. unfold activeStoryboard. simpl. now rewrite Htarget.
    + simpl. now rewrite Hid, String.eqb_refl.
Qed.

Lemma select_storyboard_moves_only_the_pointer_witness :
  let st := createStoryboard initialApp 1700 in
  shotsOf st = [] /\
  shotsOf (selectStoryboard st "sb-1") = DEFAULT_SHOTS.
Proof.
  intros st. split; [reflexivity|].
  refine (proj2 (proj2 (proj2 (proj2
            (@select_storyboard_moves_only_the_pointer st "sb-1" _ _
               (mkStoryboard "sb-1" "The Encounter" DEFAULT_SHOTS)
               _ eq_refl eq_refl eq_refl eq_refl))))).
  simpl. repeat constructor. intros [].
Defined.

(** X24.  Over a non-empty sequence the timer-driven player never fails to
    render: after any ticks and play/pause presses the render completes and
    shows the number, title and image of the shot at the current index. *)
Theorem render_succeeds_on_nonempty {num : Type} {N : Number num}
    (shots : list (Shot num)) (es : list Event) :
  shots <> [] ->
  exists st cur,
    run shots es initialState = Ok st /\
    nth_error shots (currentShotIndex st) = Some cur /\
    render shots st =
      Ok (mkView (imageUrl cur) (number cur) (title cur) (isPlaying st)).
Proof.
  intros Hne.
  assert (H0 : currentShotIndex (@initialState num N) < List.length shots).
  { destruct shots; [contradiction|simpl; lia]. }
  destruct (@run_in_range _ _ shots es initialState H0) as (st & Hrun & Hlt).
  destruct (nth_error shots (currentShotIndex st)) as [cur|] eqn:Hcur;
    [|apply nth_error_None in Hcur; lia].
  exists st, cur. split; [exact Hrun|]. split; [exact Hcur|].
  unfold render, currentShot. now rewrite Hcur.
Qed.

Lemma render_succeeds_on_nonempty_witness :
  DEFAULT_SHOTS <> [] /\
  exists st cur,
    run DEFAULT_SHOTS (repeat Tick 40) (@initialState float binary64) = Ok st /\
    nth_error DEFAULT_SHOTS (currentShotIndex st) = Some cur /\
    render DEFAULT_SHOTS st =
      Ok (mkView (imageUrl cur) (number cur) (title cur) (isPlaying st)).
Proof.
  assert (Hne : DEFAULT_SHOTS <> []) by discriminate.
  split; [exact Hne|].
  exact (@render_succeeds_on_nonempty float binary64 DEFAULT_SHOTS
           (repeat Tick 40) Hne).
Defined.

Lemma find_filter_kept {A : Type} (f g : A -> bool) (l : list A) (x : A) :
  find f l = Some x -> g x = true -> find f (filter g l) = Some x.
Proof.
  induction l as [|a l IH]; intros Hf Hg; simpl in *; [discriminate|].
  destruct (f a) eqn:Hfa.
  - inversion Hf; subst a. rewrite Hg. simpl. now rewrite Hfa.
  - destruct (g a); simpl; [rewrite Hfa|]; now apply IH.
Qed.

Lemma find_filter_none {A : Type} (f g : A -> bool) (l : list A) :
  find f l = None -> find f (filter g l) = None.
Proof.
  induction l as [|a l IH]; intros Hf; simpl in *; [reflexivity|].
  destruct (f a) eqn:Hfa; [discriminate|].
  destruct (g a); simpl; [rewrite Hfa|]; now apply IH.
Qed.

(** The storyboard shown by a project from which the storyboards with id [i]
    were removed and whose pointer was moved as [executeDelete] moves it. *)
Lemma activeStoryboard_after_delete (p : Project) (sb first : Storyboard)
    (rest : list Storyboard) (i : string) :
  activeStoryboard p = Some sb ->
  filter (fun x => negb (String.eqb (sb_id x) i)) (p_storyboards p) =
    first :: rest ->
  activeStoryboard
    (setActiveStoryboardId (setStoryboards p (first :: rest))
       (if String.eqb (p_activeStoryboardId p) i
        then sb_id first else p_activeStoryboardId p)) =
    Some (if String.eqb (sb_id sb) i then first else sb).
Proof.
  intros Hsb Hrem. unfold activeStoryboard in *. cbn [p_storyboards
    p_activeStoryboardId setActiveStoryboardId setStoryboards].
  destruct (find (fun x => String.eqb (sb_id x) (p_activeStoryboardId p))
                 (p_storyboards p)) as [sb0|] eqn:Hfind; simpl in Hsb.
  - inversion Hsb; subst sb0.
    destruct (find_some _ _ Hfind) as [_ Hid]. apply String.eqb_eq in Hid.
    rewrite <- Hid.
    destruct (String.eqb_spec (sb_id sb) i) as [Heq|Hne].
    + simpl. now rewrite String.eqb_refl.
    + rewrite <- Hrem, Hid.
      rewrite (@find_filter_kept _ _ (fun x => negb (String.eqb (sb_id x) i))
                 _ _ Hfind); [reflexivity|].
      simpl. now apply Bool.negb_true_iff, String.eqb_neq.
  - destruct (p_storyboards p) as [|hd tl] eqn:Hl; [discriminate|].
    simpl in Hsb. inversion Hsb; subst hd.
    destruct (String.eqb_spec (p_activeStoryboardId p) i) as [Hptr|Hptr].
    + simpl. rewrite String.eqb_refl. simpl.
      destruct (String.eqb_spec (sb_id sb) i) as [Heq|Hne]; [reflexivity|].
      simpl in Hrem. apply String.eqb_neq in Hne. rewrite Hne in Hrem.
      simpl in Hrem. now inversion Hrem.
    + rewrite <- Hrem.
      rewrite (@find_filter_none _ _
                 (fun x => negb (String.eqb (sb_id x) i)) _ Hfind).
      rewrite Hrem. simpl.
      destruct (String.eqb_spec (sb_id sb) i) as [Heq|Hne]; [reflexivity|].
      apply String.eqb_neq in Hne. simpl in Hrem. rewrite Hne in Hrem.
      simpl in Hrem. now inversion Hrem.
Qed.

(** X25.  Deleting a storyboard through the confirmation dialog, with no
    deletion pending, [activeProjectId] naming the shown project and a
    non-empty storyboard id: [executeDelete] never throws and closes the
    dialog; every other project stays in place unchanged; nothing is deleted
    when the project has a single storyboard or when every storyboard
    carries the id; otherwise the shown project keeps exactly the
    storyboards with another id, in order, the shown shots are unchanged when
    the shown storyboard has another id, and the first remaining storyboard
    is shown when the shown one was deleted. *)
Theorem delete_storyboard_removes_it (st : AppState)
    (storyboardId storyboardName : string) (p : Project) (sb : Storyboard) :
  deleteConfirmation st = closedConfirmation ->
  activeProject st = Some p -> p_id p = activeProjectId st ->
  activeStoryboard p = Some sb ->
  storyboardId <> EmptyString ->
  let remaining :=
    filter (fun x => negb (String.eqb (sb_id x) storyboardId))
           (p_storyboards p) in
  exists st' p',
    executeDelete (requestDeleteStoryboard st storyboardId storyboardName) =
      Ok st' /\
    activeProject st' = Some p' /\
    deleteConfirmation st' = closedConfirmation /\
    (forall i q, nth_error (projects st) i = Some q ->
                 p_id q <> activeProjectId st ->
                 nth_error (projects st') i = Some q) /\
    (List.length (p_storyboards p) <= 1 \/ remaining = [] ->
     projects st' = projects st) /\
    (1 < List.length (p_storyboards p) -> remaining <> [] ->
     p_storyboards p' = remaining /\
     (sb_id sb <> storyboardId -> shotsOf st' = shotsOf st) /\
     (sb_id sb = storyboardId -> activeStoryboard p' = hd_error remaining)).
Proof.
  intros Hdc Hp Hid Hsb Hsid remaining.
  assert (Htruthy : truthyId (Some storyboardId) = Some storyboardId).
  { destruct storyboardId; [contradiction|reflexivity]. }
  unfold requestDeleteStoryboard, withActive. rewrite Hp, Hsb.
  destruct (Nat.leb_spec (List.length (p_storyboards p)) 1) as [Hle|Hgt].
  - exists (setDeleteConfirmation st closedConfirmation), p.
    unfold executeDelete. rewrite Hdc. simpl.
    split; [reflexivity|]. split; [exact Hp|]. split; [reflexivity|].
    split; [intros i q Hq _; exact Hq|]. split; [reflexivity|]. lia.
  - unfold executeDelete.
    cbn [deleteConfirmation setDeleteConfirmation dc_type dc_id].
    rewrite Htruthy. unfold withActive.
    change (activeProject (setDeleteConfirmation st
              (mkConfirmation true (Some DeleteStoryboard) (Some storyboardId)
                              storyboardName)))
      with (activeProject st).
    rewrite Hp, Hsb. fold remaining.
    destruct remaining as [|first rest] eqn:Hrem.
    + eexists. exists p. split; [reflexivity|]. simpl.
      split; [exact Hp|]. split; [reflexivity|].
      split; [intros i q Hq _; exact Hq|]. split; [reflexivity|].
      intros _ Hne. now elim Hne.
    + set (up := setActiveStoryboardId (setStoryboards p (first :: rest))
                   (if String.eqb (p_activeStoryboardId p) storyboardId
                    then sb_id first else p_activeStoryboardId p)).
      assert (Hact : forall dc,
                activeProject
                  (setDeleteConfirmation
                     (setProjects
                        (setDeleteConfirmation st dc)
                        (map (fun x => if String.eqb (p_id x) (activeProjectId st)
                                       then up else x) (projects st)))
                     closedConfirmation) = Some up).
      { intros dc. unfold activeProject. simpl.
        rewrite (find_replace
                   (fun x => String.eqb (p_id x) (activeProjectId st))
                   up (projects st) (activeProject_found _ Hp Hid));
          [reflexivity|].
        simpl. now rewrite Hid, String.eqb_refl. }
      eexists. exists up. split; [reflexivity|].
      split; [apply Hact|]. split; [reflexivity|].
      split; [|split].
      * intros i q Hq Hne. simpl. rewrite nth_error_map, Hq. simpl.
        apply String.eqb_neq in Hne. now rewrite Hne.
      * intros [Hle|Hnil]; [lia|discriminate].
      * intros _ _. split; [reflexivity|].
        pose proof (@activeStoryboard_after_delete p sb first rest storyboardId
                      Hsb Hrem) as Hshown. fold up in Hshown.
        split.
        -- intros Hne. unfold shotsOf. rewrite Hact, Hp, Hsb, Hshown.
           apply String.eqb_neq in Hne. now rewrite Hne.
        -- intros Heq. rewrite Hshown, Heq, String.eqb_refl. reflexivity.
Qed.

Lemma delete_storyboard_removes_it_witness :
  let st := createStoryboard initialApp 1700 in
  exists st' p',
    executeDelete (requestDeleteStoryboard st "sb-1700" "Storyboard 2") =
      Ok st' /\
    activeProject st' = Some p' /\
    shotsOf st = [] /\
    p_storyboards p' = DEFAULT_STORYBOARDS /\
    activeStoryboard p' = hd_error DEFAULT_STORYBOARDS.
Proof.
  intros st.
  assert (Hsid : "sb-1700" <> EmptyString) by discriminate.
  destruct (@delete_storyboard_removes_it st "sb-1700" "Storyboard 2"
              (mkProject "p-1" "The Midnight Discovery"
                 (DEFAULT_STORYBOARDS ++
                    [mkStoryboard "sb-1700" "Storyboard 2" []])
                 "sb-1700" R16_9)
              (mkStoryboard "sb-1700" "Storyboard 2" [])
              eq_refl eq_refl eq_refl eq_refl Hsid)
    as (st' & p' & Hdel & Hact & _ & _ & _ & Hrest).
  exists st', p'. split; [exact Hdel|]. split; [exact Hact|].
  split; [reflexivity|].
  destruct Hrest as (Hs & _ & Hshown); [simpl; lia|discriminate|].
  split; [exact Hs|exact (Hshown eq_refl)].
Defined.
